(** * Header building and parsing of pkg/message/header.go

    A shallow embedding of [GetHeader], [GetAttachmentHeader], [parseHeader]
    and [sanitizeAddressList], with the Go library calls they rely on
    ([strings], [net/textproto]) modelled next to them, and the properties
    of the header builder, the header parser and the address sanitizer. *)

From Stdlib Require Import ZArith Lia Ascii String List.
From stdpp Require Import base option gmap strings.

Local Open Scope string_scope.
Local Open Scope Z_scope.

(** ** Outcomes of Go code that may panic

    [Ret] is a normal return, [Panic] a run-time panic (slice bounds or
    index out of range), [Timeout] a loop whose iteration budget ran out. *)

Inductive outcome (A : Type) : Type :=
| Ret (a : A)
| Panic
| Timeout.

Arguments Ret {A} a.
Arguments Panic {A}.
Arguments Timeout {A}.

Definition outcome_bind {A B : Type} (f : A → outcome B) (o : outcome A) : outcome B :=
  match o with
  | Ret a => f a
  | Panic => Panic
  | Timeout => Timeout
  end.

#[global] Instance outcome_mbind : MBind outcome := @outcome_bind.
#[global] Instance outcome_mret : MRet outcome := @Ret.

(** ** The [strings] package on byte strings *)

Module GoStrings.

(** [len(s)] as a Go [int]. *)
Definition len (s : string) : Z := Z.of_nat (String.length s).

Fixpoint drop (n : nat) (s : string) : string :=
  match n, s with
  | O, _ => s
  | S _, EmptyString => EmptyString
  | S n', String _ s' => drop n' s'
  end.

Fixpoint take (n : nat) (s : string) : string :=
  match n, s with
  | O, _ => EmptyString
  | S _, EmptyString => EmptyString
  | S n', String c s' => String c (take n' s')
  end.

(** [s[lo:]]: panics unless [0 <= lo <= len(s)]. *)
Definition slice_from (s : string) (lo : Z) : outcome string :=
  if (0 <=? lo) && (lo <=? len s) then Ret (drop (Z.to_nat lo) s) else Panic.

(** [s[:hi]]: panics unless [0 <= hi <= len(s)]. *)
Definition slice_to (s : string) (hi : Z) : outcome string :=
  if (0 <=? hi) && (hi <=? len s) then Ret (take (Z.to_nat hi) s) else Panic.

(** [strings.HasPrefix(s, p)]. *)
Fixpoint HasPrefix (s p : string) {struct p} : bool :=
  match p, s with
  | EmptyString, _ => true
  | String _ _, EmptyString => false
  | String a p', String b s' => Ascii.eqb a b && HasPrefix s' p'
  end.

(** Position of the first occurrence of [sub] in [s]. *)
Fixpoint index_nat (s sub : string) : option nat :=
  if HasPrefix s sub then Some O
  else match s with
       | EmptyString => None
       | String _ s' => option_map S (index_nat s' sub)
       end.

(** Position of the last occurrence of [sub] in [s]. *)
Fixpoint last_index_nat (s sub : string) : option nat :=
  match s with
  | EmptyString => if HasPrefix s sub then Some O else None
  | String _ s' =>
      match last_index_nat s' sub with
      | Some n => Some (S n)
      | None => if HasPrefix s sub then Some O else None
      end
  end.

Definition int_of_pos (o : option nat) : Z :=
  match o with
  | Some n => Z.of_nat n
  | None => -1
  end.

(** [strings.Index(s, sub)]: first index of [sub] in [s], or -1. *)
Definition Index (s sub : string) : Z := int_of_pos (index_nat s sub).

(** [strings.LastIndex(s, sub)]: last index of [sub] in [s], or -1. *)
Definition LastIndex (s sub : string) : Z := int_of_pos (last_index_nat s sub).

(** [strings.Contains(s, sub)] is [Index(s, sub) >= 0]. *)
Definition Contains (s sub : string) : bool := 0 <=? Index s sub.

(** [strings.Join(elems, sep)]. *)
Fixpoint Join (elems : list string) (sep : string) : string :=
  match elems with
  | [] => EmptyString
  | [e] => e
  | e :: rest => e +:+ sep +:+ Join rest sep
  end.

End GoStrings.

Export GoStrings.

(** ** The header container of [net/textproto]

    A [textproto.MIMEHeader] (and a [mail.Header]) is a Go map from
    canonical field names to the list of the field's values. *)

Module Textproto.

Definition is_lower (c : ascii) : bool :=
  let n := N_of_ascii c in ((97 <=? n) && (n <=? 122))%N.

Definition is_upper (c : ascii) : bool :=
  let n := N_of_ascii c in ((65 <=? n) && (n <=? 90))%N.

Definition is_digit (c : ascii) : bool :=
  let n := N_of_ascii c in ((48 <=? n) && (n <=? 57))%N.

Definition to_upper (c : ascii) : ascii := ascii_of_N (N_of_ascii c - 32).
Definition to_lower (c : ascii) : ascii := ascii_of_N (N_of_ascii c + 32).

(** The token bytes of RFC 7230, the bytes a field name may hold. *)
Definition validHeaderFieldByte (c : ascii) : bool :=
  is_lower c || is_upper c || is_digit c
  || existsb (Ascii.eqb c) (list_ascii_of_string "!#$%&'*+-.^_`|~").

Fixpoint canonicalize (upper : bool) (s : string) : string :=
  match s with
  | EmptyString => EmptyString
  | String c s' =>
      let c' := if upper && is_lower c then to_upper c
                else if negb upper && is_upper c then to_lower c
                else c in
      String c' (canonicalize (Ascii.eqb c' "-") s')
  end.

(** [textproto.CanonicalMIMEHeaderKey]: the first letter and every letter
    after a hyphen in upper case, the others in lower case; a key with a
    byte that is not a token byte is returned as it is. *)
Definition CanonicalMIMEHeaderKey (s : string) : string :=
  if forallb validHeaderFieldByte (list_ascii_of_string s)
  then canonicalize true s
  else s.

Abbreviation MIMEHeader := (gmap string (list string)).

(** [h.Get(key)]: the first value of the field, or the empty string. *)
Definition MIMEHeader_Get (h : MIMEHeader) (key : string) : string :=
  match h !! CanonicalMIMEHeaderKey key with
  | Some (v :: _) => v
  | _ => EmptyString
  end.

(** [h.Set(key, value)]: the field gets the single value [value]. *)
Definition MIMEHeader_Set (h : MIMEHeader) (key value : string) : MIMEHeader :=
  <[CanonicalMIMEHeaderKey key := [value]]> h.

(** All values stored for a field, [None] when the map has no entry. *)
Definition MIMEHeader_values (h : MIMEHeader) (key : string) : option (list string) :=
  h !! CanonicalMIMEHeaderKey key.

End Textproto.

Export Textproto.

(** ** The store of header maps

    A Go map is a reference: converting [msg.Header] to a
    [textproto.MIMEHeader] copies the reference, not the entries.  The store
    holds the maps; a map value in the program is [nil] or a location. *)

Module Store.

Abbreviation loc := positive.
Abbreviation heap := (gmap positive (gmap string (list string))).

(** A map-typed value: [None] is the nil map. *)
Abbreviation href := (option positive).

(** Reading a nil map (or a missing location) sees no entries. *)
Definition deref (σ : heap) (h : href) : MIMEHeader :=
  match h with
  | Some l => default ∅ (σ !! l)
  | None => ∅
  end.

(** Code that reads and writes the store. *)
Definition St (A : Type) : Type := heap → A * heap.

Definition st_ret {A : Type} (a : A) : St A := λ σ, (a, σ).

Definition st_bind {A B : Type} (f : A → St B) (m : St A) : St B :=
  λ σ, let '(a, σ') := m σ in f a σ'.

#[global] Instance St_mret : MRet St := @st_ret.
#[global] Instance St_mbind : MBind St := @st_bind.

(** [make(textproto.MIMEHeader)]: a new, empty map. *)
Definition make : St loc :=
  λ σ, let l := fresh (dom σ) in (l, <[l := ∅]> σ).

(** [h.Get(key)] through a reference. *)
Definition Get (h : href) (key : string) : St string :=
  λ σ, (MIMEHeader_Get (deref σ h) key, σ).

(** [h.Set(key, value)] through a non-nil reference: the map is updated in
    place, which every holder of the reference sees. *)
Definition SetField (h : loc) (key value : string) : St unit :=
  λ σ, (tt, <[h := MIMEHeader_Set (deref σ (Some h)) key value]> σ).

Definition when (b : bool) (m : St unit) : St unit :=
  if b then m else mret tt.

End Store.

Export Store.

(** ** Data model *)

(** A Go slice value: [None] is the nil slice, [Some []] an empty slice
    that is not nil. *)
Definition slice (A : Type) : Type := option (list A).

Definition slice_len {A : Type} (s : slice A) : Z :=
  match s with
  | Some l => Z.of_nat (List.length l)
  | None => 0
  end.

(** [s[i]]: panics when [i] is out of range. *)
Definition slice_index {A : Type} (s : slice A) (i : nat) : outcome A :=
  match s with
  | Some l => match nth_error l i with
              | Some a => Ret a
              | None => Panic
              end
  | None => Panic
  end.

(** [mail.Address]. *)
Record Address : Type := mkAddress {
  Name : string;
  Addr : string
}.

(** The fields of [pmapi.Message] this file reads or writes.  [Sender] is a
    pointer ([None] is nil); the address lists hold non-nil pointers. *)
Record Message : Type := mkMessage {
  ID : string;
  ExternalID : string;
  ConversationID : string;
  Subject : string;
  Sender : option Address;
  ReplyTos : slice Address;
  ToList : slice Address;
  CCList : slice Address;
  BCCList : slice Address;
  MIMEType : string;
  Time : Z;
  Header : href
}.

(** The fields of [pmapi.Attachment] this file reads. *)
Record Attachment : Type := mkAttachment {
  AttMIMEType : string;
  AttName : string;
  AttHeader : href
}.

Definition with_Subject (v : string) (m : Message) : Message :=
  mkMessage (ID m) (ExternalID m) (ConversationID m) v (Sender m) (ReplyTos m)
    (ToList m) (CCList m) (BCCList m) (MIMEType m) (Time m) (Header m).

Definition with_Sender (v : option Address) (m : Message) : Message :=
  mkMessage (ID m) (ExternalID m) (ConversationID m) (Subject m) v (ReplyTos m)
    (ToList m) (CCList m) (BCCList m) (MIMEType m) (Time m) (Header m).

Definition with_ReplyTos (v : slice Address) (m : Message) : Message :=
  mkMessage (ID m) (ExternalID m) (ConversationID m) (Subject m) (Sender m) v
    (ToList m) (CCList m) (BCCList m) (MIMEType m) (Time m) (Header m).

Definition with_ToList (v : slice Address) (m : Message) : Message :=
  mkMessage (ID m) (ExternalID m) (ConversationID m) (Subject m) (Sender m)
    (ReplyTos m) v (CCList m) (BCCList m) (MIMEType m) (Time m) (Header m).

Definition with_CCList (v : slice Address) (m : Message) : Message :=
  mkMessage (ID m) (ExternalID m) (ConversationID m) (Subject m) (Sender m)
    (ReplyTos m) (ToList m) v (BCCList m) (MIMEType m) (Time m) (Header m).

Definition with_BCCList (v : slice Address) (m : Message) : Message :=
  mkMessage (ID m) (ExternalID m) (ConversationID m) (Subject m) (Sender m)
    (ReplyTos m) (ToList m) (CCList m) v (MIMEType m) (Time m) (Header m).

Definition with_Time (v : Z) (m : Message) : Message :=
  mkMessage (ID m) (ExternalID m) (ConversationID m) (Subject m) (Sender m)
    (ReplyTos m) (ToList m) (CCList m) (BCCList m) (MIMEType m) v (Header m).

Definition with_Header (v : href) (m : Message) : Message :=
  mkMessage (ID m) (ExternalID m) (ConversationID m) (Subject m) (Sender m)
    (ReplyTos m) (ToList m) (CCList m) (BCCList m) (MIMEType m) (Time m) v.

(** Modelled from the spec: [pmapi.NewMessage] is not part of header.go.
    Every field is at its default (empty Subject, no Sender, Time 0, nil
    Header), and To, Cc and Bcc are empty sequences that are not nil. *)
Definition NewMessage : Message :=
  mkMessage "" "" "" "" None None (Some []) (Some []) (Some []) "" 0 None.

(** ** External collaborators

    The header-value codec ([pmmime]), the address-list and date parsers
    ([net/mail]), the formatting of times and media types, and the helpers
    and constants of this repository that live outside header.go. *)

Class Collaborators : Type := {
  error : Type;
  (** [time.Time] *)
  time : Type;
  EncodeHeader : string → string;
  DecodeHeader : string → string * option error;
  ParseAddressList : string → slice Address * option error;
  parseAddressComment : string → string;
  formatAddressList : slice Address → string;
  (** the [String] method of [mail.Address] *)
  AddressString : Address → string;
  ErrHeaderNotPresent : error;
  ParseDate : string → time * option error;
  zeroTime : time;
  IsZero : time → bool;
  Unix : time → Z;
  (** [time.Unix(t, 0).Format(time.RFC1123Z)] *)
  FormatRFC1123Z : Z → string;
  FormatMediaType : string → list (string * string) → string;
  InternalIDDomain : string;
  ConversationIDDomain : string
}.

(** ** The bracket scan of [sanitizeAddressList]

    The variables of the [for] loop: the rest of the field value still to
    scan, the spans collected so far, and the two indices of the loop
    condition. *)

Record scan : Type := mkScan {
  scan_addrStr : string;
  scan_addrList : list string;
  scan_open : Z;
  scan_last : Z
}.

(** The loop condition [open < last && 0 <= open]. *)
Definition scan_guard (st : scan) : bool :=
  (scan_open st <? scan_last st) && (0 <=? scan_open st).

(** One iteration of the loop body.  [close + 1] cannot overflow: [close]
    is below the length of a string. *)
Definition scan_body (st : scan) : outcome scan :=
  s1 ← slice_from (scan_addrStr st) (scan_open st);
  let close := Index s1 ">" in
  piece ← slice_to s1 (close + 1);
  s2 ← slice_from s1 close;
  mret (mkScan s2 (scan_addrList st ++ [piece]) (Index s2 "<") (LastIndex s2 ">")).

(** The loop, with a bound on the number of iterations. *)
Fixpoint scan_loop (fuel : nat) (st : scan) : outcome scan :=
  if scan_guard st then
    match fuel with
    | O => Timeout
    | S fuel' => st' ← scan_body st; scan_loop fuel' st'
    end
  else Ret st.

Section Model.

Context `{C : Collaborators}.

(** [mail.Header.Date]: the parsed [Date] field, or [ErrHeaderNotPresent]
    when the field is empty. *)
Definition Header_Date (h : MIMEHeader) : time * option error :=
  let hdr := MIMEHeader_Get h "Date" in
  if String.eqb hdr "" then (zeroTime, Some ErrHeaderNotPresent)
  else ParseDate hdr.

(** [h.Date()] through a reference. *)
Definition Date (h : href) : St (time * option error) :=
  λ σ, (Header_Date (deref σ h), σ).

(** [sanitizeAddressList(h, field)], returning the named results
    [(addrs, err)].  The header is only read, so the function takes the
    entries of the map [h] refers to.  The loop runs with one iteration
    per byte of the field value as its budget. *)
Definition sanitizeAddressList (h : MIMEHeader) (field : string)
  : outcome (slice Address * option error) :=
  let raw := MIMEHeader_Get h field in
  if String.eqb raw "" then Ret (None, Some ErrHeaderNotPresent)
  else
    let '(decoded, err) := DecodeHeader raw in
    match err with
    | Some _ => Ret (None, err)
    | None =>
        let '(addrs, err) := ParseAddressList (parseAddressComment decoded) in
        match err with
        | None => Ret (match addrs with None => Some [] | Some _ => addrs end, None)
        | Some _ =>
            let addrStr := MIMEHeader_Get h field in
            let first := Index addrStr "<" in
            let last := LastIndex addrStr ">" in
            if (first <? 0) || (last <? 0) || (first >=? last) then Ret (addrs, err)
            else
              st ← scan_loop (String.length addrStr) (mkScan addrStr [] first last);
              Ret (ParseAddressList (Join (scan_addrList st) ", "))
        end
    end.

(** [parseHeader(h)], returning [(m, err)]; [err] is never assigned. *)
Definition parseHeader (σ : heap) (h : href) : outcome (Message * option error) :=
  let hm := deref σ h in
  let m := NewMessage in
  let m := match DecodeHeader (MIMEHeader_Get hm "Subject") with
           | (subject, None) => with_Subject subject m
           | (_, Some _) => m
           end in
  r ← sanitizeAddressList hm "From";
  m ← match r with
      | (addrs, None) =>
          if 0 <? slice_len addrs
          then a ← slice_index addrs 0; Ret (with_Sender (Some a) m)
          else Ret m
      | (_, Some _) => Ret m
      end;
  r ← sanitizeAddressList hm "Reply-To";
  let m := match r with
           | (addrs, None) => if 0 <? slice_len addrs then with_ReplyTos addrs m else m
           | (_, Some _) => m
           end in
  r ← sanitizeAddressList hm "To";
  let m := match r with
           | (addrs, None) => with_ToList addrs m
           | (_, Some _) => m
           end in
  r ← sanitizeAddressList hm "Cc";
  let m := match r with
           | (addrs, None) => with_CCList addrs m
           | (_, Some _) => m
           end in
  r ← sanitizeAddressList hm "Bcc";
  let m := match r with
           | (addrs, None) => with_BCCList addrs m
           | (_, Some _) => m
           end in
  let m := with_Time 0 m in
  let m := match Header_Date hm with
           | (t, None) => if negb (IsZero t) then with_Time (Unix t) m else m
           | (_, Some _) => m
           end in
  let m := with_Header h m in
  Ret (m, None).

(** The reference [" <id@domain>"] appended to [References]. *)
Definition reference (id domain : string) : string :=
  " <" +:+ id +:+ "@" +:+ domain +:+ ">".

(** [GetHeader(msg)]: the returned map, as a location of the store. *)
Definition GetHeader (msg : Message) : St loc :=
  h0 ← make;
  (* Copy the custom header fields if there are some. *)
  let h := match Header msg with
           | Some l => l
           | None => h0
           end in
  (* Add or rewrite fields. *)
  SetField h "Subject" (EncodeHeader (Subject msg));;
  match Sender msg with
  | Some a => SetField h "From" (EncodeHeader (AddressString a))
  | None => mret tt
  end;;
  when (0 <? slice_len (ReplyTos msg))
    (SetField h "Reply-To" (EncodeHeader (formatAddressList (ReplyTos msg))));;
  when (0 <? slice_len (ToList msg))
    (SetField h "To" (EncodeHeader (formatAddressList (ToList msg))));;
  when (0 <? slice_len (CCList msg))
    (SetField h "Cc" (EncodeHeader (formatAddressList (CCList msg))));;
  when (0 <? slice_len (BCCList msg))
    (SetField h "Bcc" (EncodeHeader (formatAddressList (BCCList msg))));;
  (* Add or rewrite date related fields. *)
  when (0 <? Time msg)
    (SetField h "X-Pm-Date" (FormatRFC1123Z (Time msg));;
     d ← Date (Header msg);
     match d with
     | (_, Some _) => SetField h "Date" (FormatRFC1123Z (Time msg))
     | (t, None) => when (IsZero t) (SetField h "Date" (FormatRFC1123Z (Time msg)))
     end);;
  when (negb (String.eqb (ExternalID msg) ""))
    (SetField h "X-Pm-External-Id" ("<" +:+ ExternalID msg +:+ ">");;
     mid ← Get (Some h) "Message-Id";
     when (String.eqb mid "")
       (SetField h "Message-Id" ("<" +:+ ExternalID msg +:+ ">")));;
  when (negb (String.eqb (ID msg) ""))
    (mid ← Get (Some h) "Message-Id";
     when (String.eqb mid "")
       (SetField h "Message-Id" ("<" +:+ ID msg +:+ "@" +:+ InternalIDDomain +:+ ">"));;
     SetField h "X-Pm-Internal-Id" (ID msg);;
     references ← Get (Some h) "References";
     when (negb (Contains references (ID msg)))
       (SetField h "References" (references +:+ reference (ID msg) InternalIDDomain)));;
  when (negb (String.eqb (ConversationID msg) ""))
    (SetField h "X-Pm-ConversationID-Id" (ConversationID msg);;
     references ← Get (Some h) "References";
     when (negb (Contains references (ConversationID msg)))
       (SetField h "References"
          (references +:+ reference (ConversationID msg) ConversationIDDomain)));;
  mret h.

(** [GetAttachmentHeader(att)]. *)
Definition GetAttachmentHeader (att : Attachment) : St loc :=
  let mediaType := if String.eqb (AttMIMEType att) "application/pgp-encrypted"
                   then "application/octet-stream"
                   else AttMIMEType att in
  let encodedName := EncodeHeader (AttName att) in
  cd ← Get (AttHeader att) "Content-Disposition";
  let disposition := if Contains cd "inline" then "inline" else "attachment" in
  h ← make;
  SetField h "Content-Type" (FormatMediaType mediaType [("name", encodedName)]);;
  SetField h "Content-Transfer-Encoding" "base64";;
  SetField h "Content-Disposition"
    (FormatMediaType disposition [("filename", encodedName)]);;
  (* Forward some original header lines. *)
  foldr (λ k rest,
           v ← Get (AttHeader att) k;
           when (negb (String.eqb v "")) (SetField h k v);;
           rest)
        (mret tt)
        ["Content-Id"; "Content-Description"; "Content-Location"];;
  mret h.

End Model.

(** ** A concrete set of collaborators

    Small executable stand-ins, used to run the model on concrete inputs:
    a codec that leaves text as it is (or, with [decode_ok = false], whose
    decoder rejects every value), a comment stripper that drops the text in
    parentheses, a strict address-list parser that accepts only bare
    bracketed mailboxes separated by a comma and a space (and the empty
    string, as the nil list), and dates written as a run of the letter [t],
    one per second since the epoch. *)

Module Toy.

Inductive pstate : Type :=
| AtStart
| InBrackets (acc : string)
| AfterClose.

Fixpoint parse_run (st : pstate) (s : string) : option (list Address) :=
  match s, st with
  | EmptyString, AfterClose => Some []
  | EmptyString, _ => None
  | String c s', AtStart =>
      if Ascii.eqb c "<" then parse_run (InBrackets "") s' else None
  | String c s', InBrackets acc =>
      if Ascii.eqb c ">"
      then option_map (cons (mkAddress "" acc)) (parse_run AfterClose s')
      else if Ascii.eqb c "<" then None
      else parse_run (InBrackets (acc +:+ String c "")) s'
  | String c s', AfterClose =>
      if Ascii.eqb c ","
      then match s' with
           | String " " s'' => parse_run AtStart s''
           | _ => None
           end
      else None
  end.

Definition parse_list (s : string) : slice Address * option string :=
  if String.eqb s "" then (None, None)
  else match parse_run AtStart s with
       | Some l => (Some l, None)
       | None => (None, Some "mail: invalid address list")
       end.

Fixpoint strip_comments (depth : nat) (s : string) : string :=
  match s with
  | EmptyString => EmptyString
  | String c s' =>
      if Ascii.eqb c "(" then strip_comments (S depth) s'
      else if Ascii.eqb c ")" then strip_comments (Nat.pred depth) s'
      else match depth with
           | O => String c (strip_comments depth s')
           | S _ => strip_comments depth s'
           end
  end.

Definition decode (decode_ok : bool) (s : string) : string * option string :=
  if decode_ok then (s, None) else (s, Some "mime: invalid encoded word").

Definition address_string (a : Address) : string := "<" +:+ Addr a +:+ ">".

Definition format_list (l : slice Address) : string :=
  Join (map address_string (default [] l)) ", ".

Fixpoint only_t (s : string) : bool :=
  match s with
  | EmptyString => true
  | String c s' => Ascii.eqb c "t" && only_t s'
  end.

Definition parse_date (s : string) : Z * option string :=
  if only_t s then (Z.of_nat (String.length s), None)
  else (0, Some "mail: header could not be parsed").

Fixpoint run_of_t (n : nat) : string :=
  match n with
  | O => EmptyString
  | S n' => String "t" (run_of_t n')
  end.

Definition format_media_type (t : string) (params : list (string * string)) : string :=
  foldl (λ acc kv, acc +:+ "; " +:+ fst kv +:+ "=" +:+ snd kv) t params.

Definition collaborators (decode_ok : bool) : Collaborators := {|
  error := string;
  time := Z;
  EncodeHeader := λ s, s;
  DecodeHeader := decode decode_ok;
  ParseAddressList := parse_list;
  parseAddressComment := strip_comments 0;
  formatAddressList := format_list;
  AddressString := address_string;
  ErrHeaderNotPresent := "mail: header not in message";
  ParseDate := parse_date;
  zeroTime := 0;
  IsZero := λ t, t =? 0;
  Unix := λ t, t;
  FormatRFC1123Z := λ t, run_of_t (Z.to_nat t);
  FormatMediaType := format_media_type;
  InternalIDDomain := "protonmail.internalid";
  ConversationIDDomain := "protonmail.conversationid"
|}.

End Toy.

(** ** Definitions used to state the properties *)

(** The loop variables agree with the rest of the field value: [open] and
    [last] are the indices the loop computes from [addrStr]. *)
Definition scan_inv (st : scan) : Prop :=
  scan_open st = Index (scan_addrStr st) "<" ∧
  scan_last st = LastIndex (scan_addrStr st) ">".

(** [h.Set(key, value)] under a condition. *)
Definition cond_set (b : bool) (key value : string) (m : MIMEHeader) : MIMEHeader :=
  if b then MIMEHeader_Set m key value else m.

(** *** The entries [GetHeader] leaves in the map

    Each block of [GetHeader] as a function on the entries of the map it
    writes to.  [GetHeader_run] proves that running [GetHeader] on a store
    leaves exactly [headerFields] of the entries it started from. *)

Section Fields.
Context `{C : Collaborators}.

(** Subject, From, Reply-To, To, Cc and Bcc. *)
Definition fieldsEnvelope (msg : Message) (m : MIMEHeader) : MIMEHeader :=
  let m := MIMEHeader_Set m "Subject" (EncodeHeader (Subject msg)) in
  let m := match Sender msg with
           | Some a => MIMEHeader_Set m "From" (EncodeHeader (AddressString a))
           | None => m
           end in
  let m := cond_set (0 <? slice_len (ReplyTos msg)) "Reply-To"
             (EncodeHeader (formatAddressList (ReplyTos msg))) m in
  let m := cond_set (0 <? slice_len (ToList msg)) "To"
             (EncodeHeader (formatAddressList (ToList msg))) m in
  let m := cond_set (0 <? slice_len (CCList msg)) "Cc"
             (EncodeHeader (formatAddressList (CCList msg))) m in
  cond_set (0 <? slice_len (BCCList msg)) "Bcc"
    (EncodeHeader (formatAddressList (BCCList msg))) m.

(** X-Pm-Date and Date.  [msg.Header.Date()] reads the map being written
    when the message has a map, and the nil map otherwise. *)
Definition fieldsDate (msg : Message) (m : MIMEHeader) : MIMEHeader :=
  if 0 <? Time msg then
    let m1 := MIMEHeader_Set m "X-Pm-Date" (FormatRFC1123Z (Time msg)) in
    match Header_Date (match Header msg with Some _ => m1 | None => ∅ end) with
    | (_, Some _) => MIMEHeader_Set m1 "Date" (FormatRFC1123Z (Time msg))
    | (t, None) => cond_set (IsZero t) "Date" (FormatRFC1123Z (Time msg)) m1
    end
  else m.

(** X-Pm-External-Id, and Message-Id when it is unset. *)
Definition fieldsExternalID (msg : Message) (m : MIMEHeader) : MIMEHeader :=
  if negb (String.eqb (ExternalID msg) "") then
    let m1 := MIMEHeader_Set m "X-Pm-External-Id" ("<" +:+ ExternalID msg +:+ ">") in
    cond_set (String.eqb (MIMEHeader_Get m1 "Message-Id") "") "Message-Id"
      ("<" +:+ ExternalID msg +:+ ">") m1
  else m.

(** Message-Id when it is unset, X-Pm-Internal-Id, and the reference to the
    message in References. *)
Definition fieldsInternalID (msg : Message) (m : MIMEHeader) : MIMEHeader :=
  if negb (String.eqb (ID msg) "") then
    let m1 := cond_set (String.eqb (MIMEHeader_Get m "Message-Id") "") "Message-Id"
                ("<" +:+ ID msg +:+ "@" +:+ InternalIDDomain +:+ ">") m in
    let m2 := MIMEHeader_Set m1 "X-Pm-Internal-Id" (ID msg) in
    let references := MIMEHeader_Get m2 "References" in
    cond_set (negb (Contains references (ID msg))) "References"
      (references +:+ reference (ID msg) InternalIDDomain) m2
  else m.

(** X-Pm-ConversationID-Id, and the reference to the conversation in
    References. *)
Definition fieldsConversationID (msg : Message) (m : MIMEHeader) : MIMEHeader :=
  if negb (String.eqb (ConversationID msg) "") then
    let m1 := MIMEHeader_Set m "X-Pm-ConversationID-Id" (ConversationID msg) in
    let references := MIMEHeader_Get m1 "References" in
    cond_set (negb (Contains references (ConversationID msg))) "References"
      (references +:+ reference (ConversationID msg) ConversationIDDomain) m1
  else m.

(** The blocks in the order [GetHeader] runs them. *)
Definition headerFields (msg : Message) (m : MIMEHeader) : MIMEHeader :=
  fieldsConversationID msg
    (fieldsInternalID msg (fieldsExternalID msg (fieldsDate msg (fieldsEnvelope msg m)))).

(** The location [GetHeader] works on: the map of the message when it has
    one, a new map otherwise. *)
Definition target (msg : Message) (σ : heap) : loc :=
  match Header msg with
  | Some l => l
  | None => fresh (dom σ)
  end.

(** The header [GetHeader] returns, read from the store after the call. *)
Definition builtHeader (msg : Message) (σ : heap) : MIMEHeader :=
  let '(h, σ') := GetHeader msg σ in deref σ' (Some h).

End Fields.

(** The [References] value after the step for one identifier: the reference
    is appended unless the identifier is empty or already occurs in the
    value. *)
Definition addReference (id domain references : string) : string :=
  if negb (String.eqb id "") && negb (Contains references id)
  then references +:+ reference id domain
  else references.

(** The header [GetAttachmentHeader] returns, read from the store after the
    call. *)
Definition builtAttachment `{C : Collaborators} (att : Attachment) (σ : heap) : MIMEHeader :=
  let '(h, σ') := GetAttachmentHeader att σ in deref σ' (Some h).

(** The field value of the sanitizer's fallback example. *)
Definition example_raw : string := "Bad <a@example.com>, Name2 <b@example.com>".

(** ** Concrete inputs *)

Module Examples.

Definition from_header : MIMEHeader := {[ "From" := [example_raw] ]}.

Definition comment_header : MIMEHeader :=
  {[ "From" := ["(nobody)"]; "Reply-To" := ["(nobody)"] ]}.

Definition custom_header : MIMEHeader :=
  {[ "X-Custom" := ["v"]; "Subject" := ["Hello"];
     "References" := ["<abc@x>"]; "Date" := ["ttt"] ]}.

Definition inline_header : MIMEHeader :=
  {[ "Content-Disposition" := ["inline; filename=a.png"] ]}.

Definition store : heap :=
  {[ 1%positive := custom_header; 2%positive := comment_header;
     3%positive := inline_header; 4%positive := from_header ]}.

Definition message (id subject : string) (seconds : Z) (header : href) : Message :=
  mkMessage id "" "" subject None None None None None "" seconds header.

Definition attachment : Attachment := mkAttachment "image/png" "a.png" (Some 3%positive).

End Examples.

(** ** The other builders of header.go *)

(** [SetBodyContentFields(h, m)], with [h] the map the pointer refers to.
    [Set] assigns to an entry of the map, which panics on the nil map. *)
Definition SetBodyContentFields (h : href) (m : Message) : St (outcome unit) :=
  match h with
  | None => mret Panic
  | Some l =>
      SetField l "Content-Type" (MIMEType m +:+ "; charset=utf-8");;
      SetField l "Content-Disposition" "inline";;
      SetField l "Content-Transfer-Encoding" "quoted-printable";;
      mret (Ret tt)
  end.

(** [GetBodyHeader(m)]. *)
Definition GetBodyHeader (m : Message) : St loc :=
  h ← make;
  SetBodyContentFields (Some h) m;;
  mret h.

(** [GetRelatedHeader(m)]; [GetRelatedBoundary] lives outside header.go and
    is taken as a parameter. *)
Definition GetRelatedHeader (GetRelatedBoundary : Message → string) (m : Message) : St loc :=
  h ← make;
  SetField h "Content-Type" ("multipart/related; boundary=" +:+ GetRelatedBoundary m);;
  mret h.

(** ** More definitions used to state the properties *)

(** The canonical names of the fields [GetHeader] writes. *)
Definition headerFieldNames : list string :=
  ["Subject"; "From"; "Reply-To"; "To"; "Cc"; "Bcc"; "X-Pm-Date"; "Date";
   "X-Pm-External-Id"; "Message-Id"; "X-Pm-Internal-Id"; "References";
   "X-Pm-Conversationid-Id"].

(** The canonical names of the fields [GetAttachmentHeader] writes. *)
Definition attachmentFieldNames : list string :=
  ["Content-Type"; "Content-Transfer-Encoding"; "Content-Disposition";
   "Content-Id"; "Content-Description"; "Content-Location"].

(** One round of the forwarding loop of [GetAttachmentHeader]: the field is
    copied from the original header when its value there is not empty. *)
Definition forwardField (original : MIMEHeader) (key : string) (m : MIMEHeader) : MIMEHeader :=
  cond_set (negb (String.eqb (MIMEHeader_Get original key) "")) key
    (MIMEHeader_Get original key) m.

(** The entries of the map [GetAttachmentHeader] returns, as a function of
    the attachment and the entries of its original header. *)
Definition attachmentFields `{C : Collaborators} (att : Attachment) (original : MIMEHeader)
  : MIMEHeader :=
  let mediaType := if String.eqb (AttMIMEType att) "application/pgp-encrypted"
                   then "application/octet-stream"
                   else AttMIMEType att in
  let encodedName := EncodeHeader (AttName att) in
  let disposition := if Contains (MIMEHeader_Get original "Content-Disposition") "inline"
                     then "inline" else "attachment" in
  let m := MIMEHeader_Set ∅ "Content-Type"
             (FormatMediaType mediaType [("name", encodedName)]) in
  let m := MIMEHeader_Set m "Content-Transfer-Encoding" "base64" in
  let m := MIMEHeader_Set m "Content-Disposition"
             (FormatMediaType disposition [("filename", encodedName)]) in
  forwardField original "Content-Location"
    (forwardField original "Content-Description"
       (forwardField original "Content-Id" m)).

(** A span the bracket scan collects: it begins with an open bracket and its
    only close bracket is its last byte. *)
Definition span_ok (p : string) : Prop :=
  HasPrefix p "<" = true ∧ Index p ">" = len p - 1.

(** The entries [SetBodyContentFields] leaves in the map. *)
Definition bodyFields (msg : Message) (m : MIMEHeader) : MIMEHeader :=
  MIMEHeader_Set
    (MIMEHeader_Set
       (MIMEHeader_Set m "Content-Type" (MIMEType msg +:+ "; charset=utf-8"))
       "Content-Disposition" "inline")
    "Content-Transfer-Encoding" "quoted-printable".

(** The spans collected from [raw]: all well formed and all substrings of
    [raw]; the rest to scan is a suffix of [raw]. *)
Definition spans_inv (raw : string) (st : scan) : Prop :=
  scan_inv st ∧
  (∃ k, scan_addrStr st = drop k raw) ∧
  Forall span_ok (scan_addrList st) ∧
  Forall (λ p, Contains raw p = true) (scan_addrList st).

Section MoreViews.
Context `{C : Collaborators}.

(** What the date block read on the first run. *)
Definition dateView (msg : Message) (m : MIMEHeader) : MIMEHeader :=
  match Header msg with
  | Some _ => MIMEHeader_Set (fieldsEnvelope msg m) "X-Pm-Date" (FormatRFC1123Z (Time msg))
  | None => ∅
  end.

(** The Message [parseHeader] builds from the entries [hm] of the header
    [h] and the five answers of the sanitizer. *)
Definition parsedMessage (h : href) (hm : MIMEHeader)
    (rFrom rReplyTo rTo rCc rBcc : slice Address * option error) : Message :=
  mkMessage "" "" ""
    (match DecodeHeader (MIMEHeader_Get hm "Subject") with
     | (subject, None) => subject
     | (_, Some _) => ""
     end)
    (match rFrom with
     | (Some (a :: _), None) => Some a
     | _ => None
     end)
    (match rReplyTo with
     | (addrs, None) => if 0 <? slice_len addrs then addrs else None
     | (_, Some _) => None
     end)
    (match rTo with (addrs, None) => addrs | (_, Some _) => Some [] end)
    (match rCc with (addrs, None) => addrs | (_, Some _) => Some [] end)
    (match rBcc with (addrs, None) => addrs | (_, Some _) => Some [] end)
    ""
    (match Header_Date hm with
     | (t, None) => if IsZero t then 0 else Unix t
     | (_, Some _) => 0
     end)
    h.

End MoreViews.

(** The header of a Message built by [GetHeader] and parsed back by
    [parseHeader]. *)
Definition reparsed `{C : Collaborators} (msg : Message) (σ : heap)
  : outcome (Message * option error) :=
  parseHeader (GetHeader msg σ).2 (Some (GetHeader msg σ).1).

(** The collaborators take the formatted list [l] back to [l]: its encoding
    is not empty, decodes, and the decoded text parses to [l]. *)
Definition list_round_trips `{C : Collaborators} (l : slice Address) : Prop :=
  EncodeHeader (formatAddressList l) ≠ "" ∧
  ∃ decoded,
    DecodeHeader (EncodeHeader (formatAddressList l)) = (decoded, None) ∧
    ParseAddressList (parseAddressComment decoded) = (l, None).

(** ** More concrete inputs *)

Module MoreExamples.

Definition original_header : MIMEHeader :=
  {[ "Content-Disposition" := ["inline"]; "Content-Id" := ["<cid1>"];
     "X-Attachment-Id" := ["z"] ]}.

Definition store : heap := {[ 1%positive := original_header ]}.

Definition attachment : Attachment := mkAttachment "image/png" "a.png" (Some 1%positive).

Definition no_bracket_header : MIMEHeader := {[ "To" := ["undisclosed recipients"] ]}.

Definition nested_header : MIMEHeader := {[ "To" := ["x <<a@b>> y <c@d> z <e"] ]}.

End MoreExamples.

Module RoundTripExamples.

Definition recipients : slice Address :=
  Some [mkAddress "" "a@example.com"; mkAddress "" "b@example.com"].

Definition message : Message :=
  mkMessage "id1" "" "" "Hi" (Some (mkAddress "" "s@example.com")) None
    recipients None None "text/plain" 5 None.

End RoundTripExamples.

(** * Properties *)

(** ** Strings *)

Section StringFacts.

Implicit Types (s sub p : string) (n k : nat).

Lemma drop_nil n : drop n "" = "".
Proof. by destruct n. Qed.

Lemma drop_length n s : String.length (drop n s) = (String.length s - n)%nat.
Proof.
  revert s; induction n as [|n IH]; intros [|c s]; simpl; auto with lia.
Qed.

Lemma drop_drop a b s : drop a (drop b s) = drop (b + a) s.
Proof.
  revert s; induction b as [|b IH]; intros s; simpl; [done|].
  destruct s as [|c s]; [by rewrite drop_nil|apply IH].
Qed.

Lemma take_length n s : (n ≤ String.length s)%nat → String.length (take n s) = n.
Proof.
  revert s; induction n as [|n IH]; intros [|c s]; simpl; intros Hn;
    [done|done|lia|rewrite IH; lia].
Qed.

Lemma HasPrefix_length s p :
  HasPrefix s p = true → (String.length p ≤ String.length s)%nat.
Proof.
  revert s; induction p as [|a p IH]; intros [|b s]; simpl; try (intros; lia); try done.
  intros [_ Hp]%andb_prop. apply IH in Hp. lia.
Qed.

Lemma index_nat_cons c s sub :
  index_nat (String c s) sub =
  if HasPrefix (String c s) sub then Some O else option_map S (index_nat s sub).
Proof. done. Qed.

Lemma last_index_nat_cons c s sub :
  last_index_nat (String c s) sub =
  match last_index_nat s sub with
  | Some n => Some (S n)
  | None => if HasPrefix (String c s) sub then Some O else None
  end.
Proof. done. Qed.

Lemma index_nat_Some s sub n :
  index_nat s sub = Some n →
  HasPrefix (drop n s) sub = true ∧ (n ≤ String.length s)%nat.
Proof.
  revert n; induction s as [|c s IH]; intros n.
  - simpl. destruct sub; [|done]. intros [= <-]. by split.
  - rewrite index_nat_cons. destruct (HasPrefix (String c s) sub) eqn:Hp.
    + intros [= <-]. split; [done|simpl; lia].
    + destruct (index_nat s sub) as [m|] eqn:Hm; [|done].
      intros [= <-]. destruct (IH m eq_refl) as [H1 H2]. split; [done|simpl; lia].
Qed.

Lemma last_index_nat_Some s sub n :
  last_index_nat s sub = Some n →
  HasPrefix (drop n s) sub = true ∧ (n ≤ String.length s)%nat.
Proof.
  revert n; induction s as [|c s IH]; intros n.
  - simpl. destruct sub; [|done]. intros [= <-]. by split.
  - rewrite last_index_nat_cons. destruct (last_index_nat s sub) as [m|] eqn:Hm.
    + intros [= <-]. destruct (IH m eq_refl) as [H1 H2]. split; [done|simpl; lia].
    + destruct (HasPrefix (String c s) sub) eqn:Hp; [|done].
      intros [= <-]. split; [done|simpl; lia].
Qed.

Lemma index_nat_occurs s sub k :
  HasPrefix (drop k s) sub = true →
  ∃ n, index_nat s sub = Some n ∧ (n ≤ k)%nat.
Proof.
  revert k; induction s as [|c s IH]; intros k Hk.
  - rewrite drop_nil in Hk. exists O. split; [|lia].
    change (index_nat "" sub) with (if HasPrefix "" sub then Some O else None).
    by rewrite Hk.
  - rewrite index_nat_cons. destruct (HasPrefix (String c s) sub) eqn:Hp.
    + exists O. split; [done|lia].
    + destruct k as [|k]; cbn [drop] in Hk; [congruence|]. destruct (IH k Hk) as (n & -> & Hn).
      exists (S n). split; [done|lia].
Qed.

Lemma HasPrefix_char_ne s (a b : ascii) :
  a ≠ b → HasPrefix s (String a "") = true → HasPrefix s (String b "") = false.
Proof.
  intros Hab. destruct s as [|c s]; simpl; [done|].
  rewrite !andb_true_r. intros ->%Ascii.eqb_eq. by apply Ascii.eqb_neq, not_eq_sym.
Qed.

End StringFacts.

(** ** The bracket scan *)

Lemma outcome_bind_Ret {A B : Type} (a : A) (f : A → outcome B) : Ret a ≫= f = f a.
Proof. done. Qed.

Lemma slice_from_Ret s (lo : nat) :
  (lo ≤ String.length s)%nat → slice_from s (Z.of_nat lo) = Ret (drop lo s).
Proof.
  intros Hlo. unfold slice_from, len.
  rewrite Nat2Z.id.
  destruct (Z.leb_spec 0 (Z.of_nat lo)); [|lia].
  destruct (Z.leb_spec (Z.of_nat lo) (Z.of_nat (String.length s))); [done|lia].
Qed.

Lemma slice_to_Ret s (hi : nat) :
  (hi ≤ String.length s)%nat → slice_to s (Z.of_nat hi) = Ret (take hi s).
Proof.
  intros Hhi. unfold slice_to, len.
  rewrite Nat2Z.id.
  destruct (Z.leb_spec 0 (Z.of_nat hi)); [|lia].
  destruct (Z.leb_spec (Z.of_nat hi) (Z.of_nat (String.length s))); [done|lia].
Qed.

Lemma scan_body_spec st :
  scan_inv st → scan_guard st = true →
  ∃ s1 piece s2,
    slice_from (scan_addrStr st) (scan_open st) = Ret s1 ∧
    HasPrefix s1 "<" = true ∧
    1 ≤ Index s1 ">" < len s1 ∧
    slice_to s1 (Index s1 ">" + 1) = Ret piece ∧
    slice_from s1 (Index s1 ">") = Ret s2 ∧
    len s2 < len (scan_addrStr st) ∧
    scan_body st =
      Ret (mkScan s2 (scan_addrList st ++ [piece]) (Index s2 "<") (LastIndex s2 ">")).
Proof.
  destruct st as [s acc o l]. unfold scan_inv, scan_guard, scan_body. simpl.
  intros [-> ->] [Hlt Hnn]%andb_prop.
  apply Z.ltb_lt in Hlt. apply Z.leb_le in Hnn. unfold Index, LastIndex in *.
  destruct (index_nat s "<") as [i|] eqn:Hi; simpl in Hnn, Hlt |- *; [|lia].
  destruct (last_index_nat s ">") as [j|] eqn:Hj; simpl in Hlt; [|lia].
  apply index_nat_Some in Hi as [Hopen Hi].
  apply last_index_nat_Some in Hj as [Hclose Hj].
  assert (HasPrefix (drop (j - i) (drop i s)) ">" = true) as Hocc.
  { rewrite drop_drop. by replace (i + (j - i))%nat with j by lia. }
  apply index_nat_occurs in Hocc as (c & Hc & Hcle).
  pose proof (index_nat_Some _ _ _ Hc) as [Hcp Hclen].
  pose proof (HasPrefix_length _ _ Hcp) as Hc1. rewrite drop_length in Hc1. simpl in Hc1.
  assert (c ≠ O) as Hc0.
  { intros ->. cbn [drop] in Hcp.
    rewrite (HasPrefix_char_ne _ "<" ">") in Hcp; [done|done|done]. }
  exists (drop i s), (take (S c) (drop i s)), (drop c (drop i s)).
  rewrite Hc. cbn [int_of_pos].
  replace (Z.of_nat c + 1) with (Z.of_nat (S c)) by lia.
  rewrite slice_from_Ret by done.
  rewrite slice_to_Ret by lia.
  rewrite slice_from_Ret by lia.
  split_and!; try done; unfold len; try lia.
  - rewrite !drop_length. lia.
  - rewrite outcome_bind_Ret, Hc. cbn [int_of_pos].
    replace (Z.of_nat c + 1) with (Z.of_nat (S c)) by lia.
    rewrite slice_to_Ret by lia. rewrite outcome_bind_Ret.
    rewrite slice_from_Ret by lia. by rewrite outcome_bind_Ret.
Qed.

Lemma scan_body_inv st st' :
  scan_inv st → scan_guard st = true → scan_body st = Ret st' →
  scan_inv st' ∧ (String.length (scan_addrStr st') < String.length (scan_addrStr st))%nat.
Proof.
  intros Hinv Hg Hb.
  destruct (scan_body_spec st Hinv Hg) as (s1 & piece & s2 & _ & _ & _ & _ & _ & Hlen & Hb').
  rewrite Hb' in Hb. injection Hb as <-. split; [done|]. unfold len in Hlen. simpl. lia.
Qed.

Lemma scan_loop_total fuel st :
  scan_inv st → (String.length (scan_addrStr st) ≤ fuel)%nat →
  ∃ st', scan_loop fuel st = Ret st' ∧ scan_guard st' = false.
Proof.
  revert st; induction fuel as [|fuel IH]; intros st Hinv Hfuel;
    cbn [scan_loop]; destruct (scan_guard st) eqn:Hg; eauto.
  - destruct (scan_body_spec st Hinv Hg) as (s1 & piece & s2 & _ & _ & _ & _ & _ & Hlen & _).
    unfold len in Hlen. lia.
  - destruct (scan_body_spec st Hinv Hg) as (s1 & piece & s2 & _ & _ & _ & _ & _ & Hlen & Hb).
    rewrite Hb. cbn. apply IH; [done|]. unfold len in Hlen. simpl. lia.
Qed.

Lemma scan_loop_fuel fuel fuel' st st' :
  scan_loop fuel st = Ret st' → (fuel ≤ fuel')%nat → scan_loop fuel' st = Ret st'.
Proof.
  revert fuel' st; induction fuel as [|fuel IH]; intros fuel' st; cbn [scan_loop].
  - destruct (scan_guard st) eqn:Hg; [done|]. intros ? _.
    destruct fuel'; cbn [scan_loop]; by rewrite Hg.
  - destruct (scan_guard st) eqn:Hg.
    + intros Hrun Hle. destruct fuel' as [|fuel']; [lia|]. cbn [scan_loop]. rewrite Hg.
      destruct (scan_body st) as [st1| |]; try done. cbn in *. apply IH; [done|lia].
    + intros ? _. destruct fuel'; cbn [scan_loop]; by rewrite Hg.
Qed.

(** ** Running store code *)

Section RunFacts.
Context `{C : Collaborators}.
Implicit Types (σ : heap) (m : MIMEHeader) (h : loc).

Lemma deref_insert σ h m : deref (<[h := m]> σ) (Some h) = m.
Proof. unfold deref. by rewrite lookup_insert_eq. Qed.

Lemma run_bind {A B} (c : St A) (k : A → St B) σ :
  (c ≫= k) σ = let '(a, σ') := c σ in k a σ'.
Proof. done. Qed.

Lemma run_seq {B} (c : St unit) (k : unit → St B) σ σ' :
  c σ = (tt, σ') → (c ≫= k) σ = k tt σ'.
Proof. intros H. by rewrite run_bind, H. Qed.

Lemma run_ret {A} (a : A) σ : (mret a : St A) σ = (a, σ).
Proof. done. Qed.

Lemma run_SetField h key value m σ :
  SetField h key value (<[h := m]> σ) = (tt, <[h := MIMEHeader_Set m key value]> σ).
Proof. unfold SetField. by rewrite deref_insert, insert_insert_eq. Qed.

Lemma run_Get h key m σ :
  Get (Some h) key (<[h := m]> σ) = (MIMEHeader_Get m key, <[h := m]> σ).
Proof. unfold Get. by rewrite deref_insert. Qed.

Lemma run_when_SetField b h key value m σ :
  when b (SetField h key value) (<[h := m]> σ) = (tt, <[h := cond_set b key value m]> σ).
Proof. destruct b; [apply run_SetField|done]. Qed.

Lemma run_date_block msg h m σ :
  (Header msg = Some h ∨ Header msg = None) →
  when (0 <? Time msg)
    (SetField h "X-Pm-Date" (FormatRFC1123Z (Time msg));;
     d ← Date (Header msg);
     match d with
     | (_, Some _) => SetField h "Date" (FormatRFC1123Z (Time msg))
     | (t, None) => when (IsZero t) (SetField h "Date" (FormatRFC1123Z (Time msg)))
     end) (<[h := m]> σ)
  = (tt, <[h := fieldsDate msg m]> σ).
Proof.
  intros Hh. unfold fieldsDate. destruct (0 <? Time msg); [|done]. cbn [when].
  erewrite run_seq by apply run_SetField. rewrite run_bind. unfold Date.
  assert (deref (<[h:=MIMEHeader_Set m "X-Pm-Date" (FormatRFC1123Z (Time msg))]> σ) (Header msg)
          = match Header msg with
            | Some _ => MIMEHeader_Set m "X-Pm-Date" (FormatRFC1123Z (Time msg))
            | None => ∅
            end) as ->.
  { destruct Hh as [-> | ->]; [apply deref_insert|done]. }
  destruct (Header_Date _) as [t [e|]].
  - apply run_SetField.
  - apply run_when_SetField.
Qed.

Lemma run_external_block msg h m σ :
  when (negb (String.eqb (ExternalID msg) ""))
    (SetField h "X-Pm-External-Id" ("<" +:+ ExternalID msg +:+ ">");;
     mid ← Get (Some h) "Message-Id";
     when (String.eqb mid "")
       (SetField h "Message-Id" ("<" +:+ ExternalID msg +:+ ">"))) (<[h := m]> σ)
  = (tt, <[h := fieldsExternalID msg m]> σ).
Proof.
  unfold fieldsExternalID. destruct (negb _); [|done]. cbn [when].
  erewrite run_seq by apply run_SetField.
  rewrite run_bind, run_Get. apply run_when_SetField.
Qed.

Lemma run_internal_block msg h m σ :
  when (negb (String.eqb (ID msg) ""))
    (mid ← Get (Some h) "Message-Id";
     when (String.eqb mid "")
       (SetField h "Message-Id" ("<" +:+ ID msg +:+ "@" +:+ InternalIDDomain +:+ ">"));;
     SetField h "X-Pm-Internal-Id" (ID msg);;
     references ← Get (Some h) "References";
     when (negb (Contains references (ID msg)))
       (SetField h "References" (references +:+ reference (ID msg) InternalIDDomain)))
    (<[h := m]> σ)
  = (tt, <[h := fieldsInternalID msg m]> σ).
Proof.
  unfold fieldsInternalID. destruct (negb _); [|done]. cbn [when].
  rewrite run_bind, run_Get.
  erewrite run_seq by apply run_when_SetField.
  erewrite run_seq by apply run_SetField.
  rewrite run_bind, run_Get. apply run_when_SetField.
Qed.

Lemma run_conversation_block msg h m σ :
  when (negb (String.eqb (ConversationID msg) ""))
    (SetField h "X-Pm-ConversationID-Id" (ConversationID msg);;
     references ← Get (Some h) "References";
     when (negb (Contains references (ConversationID msg)))
       (SetField h "References"
          (references +:+ reference (ConversationID msg) ConversationIDDomain)))
    (<[h := m]> σ)
  = (tt, <[h := fieldsConversationID msg m]> σ).
Proof.
  unfold fieldsConversationID. destruct (negb _); [|done]. cbn [when].
  erewrite run_seq by apply run_SetField.
  rewrite run_bind, run_Get. apply run_when_SetField.
Qed.

Lemma deref_make msg σ :
  deref (<[fresh (dom σ) := ∅]> σ) (Some (target msg σ)) = deref σ (Header msg).
Proof.
  unfold target, deref. destruct (Header msg) as [l|].
  - destruct (decide (l = fresh (dom σ))) as [->|Hne].
    + rewrite lookup_insert_eq. simpl.
      by rewrite (not_elem_of_dom_1 σ (fresh (dom σ)) (is_fresh (dom σ))).
    + by rewrite lookup_insert_ne.
  - by rewrite lookup_insert_eq.
Qed.

Lemma GetHeader_run msg σ :
  GetHeader msg σ =
    (target msg σ,
     <[target msg σ := headerFields msg (deref σ (Header msg))]> (<[fresh (dom σ) := ∅]> σ)).
Proof.
  unfold GetHeader. rewrite run_bind. unfold make at 1.
  fold (target msg σ). set (h := target msg σ). set (σ1 := <[fresh (dom σ) := ∅]> σ).
  assert (Header msg = Some h ∨ Header msg = None) as Hh.
  { unfold h, target. destruct (Header msg); auto. }
  assert (deref σ1 (Some h) = deref σ (Header msg)) as Hd by apply deref_make.
  erewrite run_seq; last first.
  { unfold SetField. by rewrite Hd. }
  erewrite run_seq; last first.
  { instantiate (1 := <[h := match Sender msg with
                               | Some a => MIMEHeader_Set _ "From" (EncodeHeader (AddressString a))
                               | None => _
                               end]> σ1).
    destruct (Sender msg); [apply run_SetField|done]. }
  do 4 (erewrite run_seq by apply run_when_SetField).
  erewrite run_seq by (by apply run_date_block).
  erewrite run_seq by apply run_external_block.
  erewrite run_seq by apply run_internal_block.
  erewrite run_seq by apply run_conversation_block.
  done.
Qed.

(** With a map in the message, [GetHeader] returns that map and the fields
    are written into it. *)
Lemma GetHeader_alias msg σ l :
  Header msg = Some l →
  (GetHeader msg σ).1 = l ∧
  deref (GetHeader msg σ).2 (Header msg) = headerFields msg (deref σ (Header msg)).
Proof.
  intros Hl. rewrite GetHeader_run. cbn [fst snd]. unfold target. rewrite Hl.
  split; [done|apply deref_insert].
Qed.

(** Without one, the returned map is new and no map of the store changes. *)
Lemma GetHeader_nil_frame msg σ l :
  Header msg = None → l ∈ dom σ →
  ((GetHeader msg σ).1 ∉ dom σ) ∧ (GetHeader msg σ).2 !! l = σ !! l.
Proof.
  intros Hnil Hl. rewrite GetHeader_run. cbn [fst snd]. unfold target. rewrite Hnil.
  pose proof (is_fresh (dom σ)) as Hfresh. split; [done|].
  rewrite !lookup_insert_ne; [done|set_solver..].
Qed.

End RunFacts.

(** ** Header maps *)

Ltac key_ne := vm_compute; discriminate.

Section MapFacts.
Implicit Types (m : MIMEHeader) (k key : string).

Lemma Get_values m k :
  MIMEHeader_Get m k = match MIMEHeader_values m k with
                       | Some (v :: _) => v
                       | _ => ""
                       end.
Proof. done. Qed.

Lemma values_Set_eq m k v : MIMEHeader_values (MIMEHeader_Set m k v) k = Some [v].
Proof. unfold MIMEHeader_values, MIMEHeader_Set. apply lookup_insert_eq. Qed.

Lemma values_Set_ne m k k' v :
  CanonicalMIMEHeaderKey k ≠ CanonicalMIMEHeaderKey k' →
  MIMEHeader_values (MIMEHeader_Set m k v) k' = MIMEHeader_values m k'.
Proof. intros. unfold MIMEHeader_values, MIMEHeader_Set. by apply lookup_insert_ne. Qed.

Lemma Get_Set_eq m k v : MIMEHeader_Get (MIMEHeader_Set m k v) k = v.
Proof. by rewrite Get_values, values_Set_eq. Qed.

Lemma Get_Set_ne m k k' v :
  CanonicalMIMEHeaderKey k ≠ CanonicalMIMEHeaderKey k' →
  MIMEHeader_Get (MIMEHeader_Set m k v) k' = MIMEHeader_Get m k'.
Proof. intros. by rewrite !Get_values, values_Set_ne. Qed.

Lemma values_cond_set_ne b m k k' v :
  CanonicalMIMEHeaderKey k ≠ CanonicalMIMEHeaderKey k' →
  MIMEHeader_values (cond_set b k v m) k' = MIMEHeader_values m k'.
Proof. intros. destruct b; [by apply values_Set_ne|done]. Qed.

Lemma values_cond_set_eq b m k v :
  MIMEHeader_values (cond_set b k v m) k = if b then Some [v] else MIMEHeader_values m k.
Proof. destruct b; [apply values_Set_eq|done]. Qed.

Lemma Get_of_values m m' k k' :
  MIMEHeader_values m k = MIMEHeader_values m' k' → MIMEHeader_Get m k = MIMEHeader_Get m' k'.
Proof. intros H. by rewrite !Get_values, H. Qed.

Lemma Get_empty k : MIMEHeader_Get ∅ k = "".
Proof. unfold MIMEHeader_Get. by rewrite lookup_empty. Qed.

End MapFacts.

Section FieldFacts.
Context `{C : Collaborators}.
Implicit Types (m : MIMEHeader) (k : string) (msg : Message).

Local Abbreviation canon := CanonicalMIMEHeaderKey.

Lemma fieldsDate_frame msg m k :
  canon "X-Pm-Date" ≠ canon k → canon "Date" ≠ canon k →
  MIMEHeader_values (fieldsDate msg m) k = MIMEHeader_values m k.
Proof.
  intros H1 H2. unfold fieldsDate. destruct (0 <? Time msg); [|done].
  destruct (Header_Date _) as [t [e|]];
    rewrite ?values_cond_set_ne, ?values_Set_ne by done; done.
Qed.

Lemma fieldsExternalID_frame msg m k :
  canon "X-Pm-External-Id" ≠ canon k → canon "Message-Id" ≠ canon k →
  MIMEHeader_values (fieldsExternalID msg m) k = MIMEHeader_values m k.
Proof.
  intros H1 H2. unfold fieldsExternalID. destruct (negb _); [|done].
  by rewrite values_cond_set_ne, values_Set_ne.
Qed.

Lemma fieldsInternalID_frame msg m k :
  canon "Message-Id" ≠ canon k → canon "X-Pm-Internal-Id" ≠ canon k →
  canon "References" ≠ canon k →
  MIMEHeader_values (fieldsInternalID msg m) k = MIMEHeader_values m k.
Proof.
  intros H1 H2 H3. unfold fieldsInternalID. destruct (negb _); [|done].
  by rewrite values_cond_set_ne, values_Set_ne, values_cond_set_ne.
Qed.

Lemma fieldsConversationID_frame msg m k :
  canon "X-Pm-ConversationID-Id" ≠ canon k → canon "References" ≠ canon k →
  MIMEHeader_values (fieldsConversationID msg m) k = MIMEHeader_values m k.
Proof.
  intros H1 H2. unfold fieldsConversationID. destruct (negb _); [|done].
  by rewrite values_cond_set_ne, values_Set_ne.
Qed.

Lemma fieldsEnvelope_frame msg m k :
  canon "Subject" ≠ canon k → canon "From" ≠ canon k → canon "Reply-To" ≠ canon k →
  canon "To" ≠ canon k → canon "Cc" ≠ canon k → canon "Bcc" ≠ canon k →
  MIMEHeader_values (fieldsEnvelope msg m) k = MIMEHeader_values m k.
Proof.
  intros. unfold fieldsEnvelope. rewrite !values_cond_set_ne by done.
  destruct (Sender msg); by rewrite !values_Set_ne.
Qed.

(** The identifier blocks leave the envelope and date fields alone. *)
Lemma identifiers_frame msg m k :
  canon "X-Pm-External-Id" ≠ canon k → canon "Message-Id" ≠ canon k →
  canon "X-Pm-Internal-Id" ≠ canon k → canon "References" ≠ canon k →
  canon "X-Pm-ConversationID-Id" ≠ canon k →
  MIMEHeader_values
    (fieldsConversationID msg (fieldsInternalID msg (fieldsExternalID msg m))) k
  = MIMEHeader_values m k.
Proof.
  intros. by rewrite fieldsConversationID_frame, fieldsInternalID_frame,
    fieldsExternalID_frame.
Qed.

End FieldFacts.

(** ** References *)

Section ContainsFacts.
Implicit Types (s t sub x p : string) (k n : nat).

Lemma Contains_occurs s sub :
  Contains s sub = true ↔ ∃ k, HasPrefix (drop k s) sub = true.
Proof.
  unfold Contains, Index. split.
  - destruct (index_nat s sub) as [n|] eqn:Hn; simpl; [|done].
    intros _. exists n. by apply index_nat_Some in Hn as [? _].
  - intros [k (n & -> & _)%index_nat_occurs]. simpl. apply Z.leb_le. lia.
Qed.

Lemma HasPrefix_app s t p : HasPrefix s p = true → HasPrefix (s +:+ t) p = true.
Proof.
  revert s; induction p as [|a p IH]; intros [|b s]; simpl; try done.
  intros [-> Hp]%andb_prop. simpl. by apply IH.
Qed.

Lemma HasPrefix_app_self p t : HasPrefix (p +:+ t) p = true.
Proof.
  induction p as [|a p IH]; simpl; [done|]. by rewrite Ascii.eqb_refl.
Qed.

Lemma drop_app_l k s t :
  (k ≤ String.length s)%nat → drop k (s +:+ t) = drop k s +:+ t.
Proof.
  revert s; induction k as [|k IH]; intros [|b s]; simpl; try done; try lia.
  intros. apply IH. lia.
Qed.

Lemma drop_app_r k s t : drop (String.length s + k) (s +:+ t) = drop k t.
Proof. induction s as [|b s IH]; simpl; done. Qed.

Lemma Contains_app_l s t x : Contains s x = true → Contains (s +:+ t) x = true.
Proof.
  unfold Contains at 1, Index. destruct (index_nat s x) as [n|] eqn:Hn; simpl; [|done].
  intros _. apply index_nat_Some in Hn as [Hp Hn].
  apply Contains_occurs. exists n. rewrite drop_app_l by done. by apply HasPrefix_app.
Qed.

Lemma Contains_app_r s t x : Contains t x = true → Contains (s +:+ t) x = true.
Proof.
  intros [k Hk]%Contains_occurs. apply Contains_occurs.
  exists (String.length s + k)%nat. by rewrite drop_app_r.
Qed.

Lemma Contains_prefix s x : HasPrefix s x = true → Contains s x = true.
Proof. intros. apply Contains_occurs. by exists O. Qed.

Lemma Contains_reference_id id domain : Contains (reference id domain) id = true.
Proof.
  unfold reference. apply Contains_app_r, Contains_prefix, HasPrefix_app_self.
Qed.

Lemma HasPrefix_refl s : HasPrefix s s = true.
Proof. induction s as [|a s IH]; simpl; [done|]. by rewrite Ascii.eqb_refl. Qed.

Lemma Contains_reference_token id domain :
  Contains (reference id domain) ("<" +:+ id +:+ "@" +:+ domain +:+ ">") = true.
Proof.
  change (reference id domain) with (" " +:+ ("<" +:+ id +:+ "@" +:+ domain +:+ ">")).
  apply Contains_app_r, Contains_prefix, HasPrefix_refl.
Qed.

Lemma addReference_contains id domain r :
  id ≠ "" → Contains (addReference id domain r) id = true.
Proof.
  intros Hid%String.eqb_neq. unfold addReference. rewrite Hid. simpl.
  destruct (Contains r id) eqn:Hr; simpl; [done|].
  apply Contains_app_r, Contains_reference_id.
Qed.

Lemma addReference_mono id domain r x :
  Contains r x = true → Contains (addReference id domain r) x = true.
Proof.
  intros Hx. unfold addReference. destruct (_ && _); [by apply Contains_app_l|done].
Qed.

Lemma addReference_present id domain r :
  Contains r id = true → addReference id domain r = r.
Proof. intros Hr. unfold addReference. by rewrite Hr, andb_false_r. Qed.

Lemma addReference_empty domain r : addReference "" domain r = r.
Proof. done. Qed.

Lemma addReference_absent id domain r :
  id ≠ "" → Contains r id = false →
  addReference id domain r = r +:+ reference id domain.
Proof. intros Hid%String.eqb_neq Hr. unfold addReference. by rewrite Hid, Hr. Qed.

Lemma addReference_twice id domain id' domain' r :
  let r1 := addReference id' domain' (addReference id domain r) in
  addReference id' domain' (addReference id domain r1) = r1.
Proof.
  intros r1.
  assert (addReference id domain r1 = r1) as ->.
  { destruct (decide (id = "")) as [->|Hid]; [done|].
    by apply addReference_present, addReference_mono, addReference_contains. }
  destruct (decide (id' = "")) as [->|Hid']; [done|].
  by apply addReference_present, addReference_contains.
Qed.

End ContainsFacts.

Section BuilderFacts.
Context `{C : Collaborators}.
Implicit Types (m : MIMEHeader) (k : string) (msg : Message) (σ : heap).

Lemma builtHeader_fields msg σ :
  builtHeader msg σ = headerFields msg (deref σ (Header msg)).
Proof. unfold builtHeader. rewrite GetHeader_run. apply deref_insert. Qed.

Lemma references_internal msg m :
  MIMEHeader_Get (fieldsInternalID msg m) "References"
  = addReference (ID msg) InternalIDDomain (MIMEHeader_Get m "References").
Proof.
  unfold fieldsInternalID, addReference. destruct (negb (String.eqb _ _)); [|done].
  cbn [andb]. rewrite (Get_Set_ne _ "X-Pm-Internal-Id" "References") by key_ne.
  rewrite (Get_of_values (cond_set _ _ _ m) m "References" "References")
    by (apply values_cond_set_ne; key_ne).
  destruct (negb (Contains _ _)); cbn [cond_set].
  - apply Get_Set_eq.
  - rewrite (Get_Set_ne _ "X-Pm-Internal-Id" "References") by key_ne.
    apply Get_of_values, values_cond_set_ne. key_ne.
Qed.

Lemma references_conversation msg m :
  MIMEHeader_Get (fieldsConversationID msg m) "References"
  = addReference (ConversationID msg) ConversationIDDomain (MIMEHeader_Get m "References").
Proof.
  unfold fieldsConversationID, addReference. destruct (negb (String.eqb _ _)); [|done].
  cbn [andb]. rewrite (Get_Set_ne _ "X-Pm-ConversationID-Id" "References") by key_ne.
  destruct (negb (Contains _ _)); cbn [cond_set].
  - apply Get_Set_eq.
  - by rewrite (Get_Set_ne _ "X-Pm-ConversationID-Id" "References") by key_ne.
Qed.

Lemma references_headerFields msg m :
  MIMEHeader_Get (headerFields msg m) "References"
  = addReference (ConversationID msg) ConversationIDDomain
      (addReference (ID msg) InternalIDDomain (MIMEHeader_Get m "References")).
Proof.
  unfold headerFields. rewrite references_conversation, references_internal.
  do 2 f_equal. apply Get_of_values.
  rewrite fieldsExternalID_frame, fieldsDate_frame, fieldsEnvelope_frame by key_ne.
  done.
Qed.

Lemma internal_id_headerFields msg m :
  ID msg ≠ "" → MIMEHeader_Get (headerFields msg m) "X-Pm-Internal-Id" = ID msg.
Proof.
  intros Hid%String.eqb_neq. unfold headerFields.
  rewrite (Get_of_values _ (fieldsInternalID msg
             (fieldsExternalID msg (fieldsDate msg (fieldsEnvelope msg m))))
             "X-Pm-Internal-Id" "X-Pm-Internal-Id")
    by (apply fieldsConversationID_frame; key_ne).
  unfold fieldsInternalID. rewrite Hid. cbn [negb].
  rewrite (Get_of_values _ (MIMEHeader_Set _ "X-Pm-Internal-Id" (ID msg))
             "X-Pm-Internal-Id" "X-Pm-Internal-Id")
    by (apply values_cond_set_ne; key_ne).
  apply Get_Set_eq.
Qed.

End BuilderFacts.

(** ** The sanitizer and the parser *)

Section SanitizerFacts.
Context `{C : Collaborators}.
Implicit Types (h : MIMEHeader) (field : string).

Lemma scan_inv_init s : scan_inv (mkScan s [] (Index s "<") (LastIndex s ">")).
Proof. done. Qed.

Lemma sanitize_returns h field : ∃ r, sanitizeAddressList h field = Ret r.
Proof.
  unfold sanitizeAddressList.
  destruct (String.eqb _ ""); [eauto|].
  destruct (DecodeHeader _) as [decoded [e|]]; [eauto|].
  destruct (ParseAddressList _) as [addrs [e|]]; [|eauto].
  destruct (_ || _); [eauto|].
  destruct (scan_loop_total (String.length (MIMEHeader_Get h field)) _
              (scan_inv_init (MIMEHeader_Get h field)) (le_n _)) as (st & -> & _).
  rewrite outcome_bind_Ret. eauto.
Qed.

Lemma sanitize_decode_error h field decoded e :
  MIMEHeader_Get h field ≠ "" →
  DecodeHeader (MIMEHeader_Get h field) = (decoded, Some e) →
  sanitizeAddressList h field = Ret (None, Some e).
Proof.
  intros Hraw%String.eqb_neq Hdec. unfold sanitizeAddressList.
  by rewrite Hraw, Hdec.
Qed.

Lemma slice_index_first {A : Type} (s : slice A) :
  0 < slice_len s → ∃ a, slice_index s 0 = Ret a.
Proof.
  destruct s as [[|a l]|]; simpl; try lia. eauto.
Qed.

End SanitizerFacts.


Lemma example_scan :
  ∃ st,
    scan_loop (String.length example_raw)
      (mkScan example_raw [] (Index example_raw "<") (LastIndex example_raw ">")) = Ret st ∧
    Join (scan_addrList st) ", " = "<a@example.com>, <b@example.com>".
Proof. eexists. split; vm_compute; reflexivity. Qed.

Section ParserFacts.
Context `{C : Collaborators}.

Lemma sanitize_fallback_example h field decoded addrs e :
  MIMEHeader_Get h field = example_raw →
  DecodeHeader example_raw = (decoded, None) →
  ParseAddressList (parseAddressComment decoded) = (addrs, Some e) →
  sanitizeAddressList h field = Ret (ParseAddressList "<a@example.com>, <b@example.com>").
Proof.
  intros Hraw Hdec Hparse. unfold sanitizeAddressList. rewrite Hraw.
  change (String.eqb example_raw "") with false. cbv iota.
  rewrite Hdec, Hparse.
  change ((Index example_raw "<" <? 0) || (LastIndex example_raw ">" <? 0)
          || (Index example_raw "<" >=? LastIndex example_raw ">")) with false.
  cbv iota.
  destruct example_scan as (st & -> & Hjoin).
  by rewrite outcome_bind_Ret, Hjoin.
Qed.

Lemma parseHeader_returns (σ : heap) (h : href) :
  ∃ m, parseHeader σ h = Ret (m, None) ∧ Header m = h.
Proof.
  unfold parseHeader.
  destruct (sanitize_returns (deref σ h) "From") as [[a1 e1] ->].
  destruct (sanitize_returns (deref σ h) "Reply-To") as [[a2 e2] ->].
  destruct (sanitize_returns (deref σ h) "To") as [[a3 e3] ->].
  destruct (sanitize_returns (deref σ h) "Cc") as [[a4 e4] ->].
  destruct (sanitize_returns (deref σ h) "Bcc") as [[a5 e5] ->].
  rewrite !outcome_bind_Ret.
  destruct e1 as [e1|].
  - rewrite !outcome_bind_Ret. eauto.
  - destruct (Z.ltb_spec 0 (slice_len a1)) as [Hlen|_].
    + destruct (slice_index_first a1 Hlen) as [a ->]. rewrite !outcome_bind_Ret. eauto.
    + rewrite !outcome_bind_Ret. eauto.
Qed.

Lemma parseHeader_empty_From (σ : heap) (h : href) addrs :
  sanitizeAddressList (deref σ h) "From" = Ret (addrs, None) →
  slice_len addrs = 0 →
  ∃ m, parseHeader σ h = Ret (m, None) ∧ Sender m = None.
Proof.
  intros Hfrom Hlen. unfold parseHeader. rewrite Hfrom.
  destruct (sanitize_returns (deref σ h) "Reply-To") as [[a2 e2] ->].
  destruct (sanitize_returns (deref σ h) "To") as [[a3 e3] ->].
  destruct (sanitize_returns (deref σ h) "Cc") as [[a4 e4] ->].
  destruct (sanitize_returns (deref σ h) "Bcc") as [[a5 e5] ->].
  rewrite outcome_bind_Ret, Hlen. change (0 <? 0) with false. cbv iota.
  rewrite !outcome_bind_Ret.
  eexists. split; [reflexivity|].
  destruct (DecodeHeader _) as [? [?|]], e2, e3, e4, e5, (0 <? slice_len a2),
    (Header_Date _) as [t [?|]]; try destruct (negb (IsZero t)); reflexivity.
Qed.

Lemma parseHeader_empty_ReplyTo (σ : heap) (h : href) addrs :
  sanitizeAddressList (deref σ h) "Reply-To" = Ret (addrs, None) →
  slice_len addrs = 0 →
  ∃ m, parseHeader σ h = Ret (m, None) ∧ ReplyTos m = ReplyTos NewMessage.
Proof.
  intros Hreply Hlen. destruct (parseHeader_returns σ h) as (m & Hm & _).
  exists m. split; [done|]. revert Hm. unfold parseHeader. rewrite Hreply.
  destruct (sanitize_returns (deref σ h) "From") as [[a1 e1] ->].
  destruct (sanitize_returns (deref σ h) "To") as [[a3 e3] ->].
  destruct (sanitize_returns (deref σ h) "Cc") as [[a4 e4] ->].
  destruct (sanitize_returns (deref σ h) "Bcc") as [[a5 e5] ->].
  rewrite outcome_bind_Ret.
  destruct e1 as [e1|]; [|destruct (0 <? slice_len a1); [destruct (slice_index a1 0)|]];
    rewrite ?outcome_bind_Ret; try done; rewrite Hlen; change (0 <? 0) with false;
    cbv iota; intros [= <-];
    destruct (DecodeHeader _) as [? [?|]], e3, e4, e5,
      (Header_Date _) as [t [?|]]; try destruct (negb (IsZero t)); reflexivity.
Qed.

End ParserFacts.

(** ** The envelope, the dates and the attachments *)

Section EnvelopeFacts.
Context `{C : Collaborators}.
Implicit Types (m : MIMEHeader) (k : string) (msg : Message) (σ : heap).
Local Abbreviation canon := CanonicalMIMEHeaderKey.

Lemma headerFields_envelope msg m k :
  canon "X-Pm-Date" ≠ canon k → canon "Date" ≠ canon k →
  canon "X-Pm-External-Id" ≠ canon k → canon "Message-Id" ≠ canon k →
  canon "X-Pm-Internal-Id" ≠ canon k → canon "References" ≠ canon k →
  canon "X-Pm-ConversationID-Id" ≠ canon k →
  MIMEHeader_values (headerFields msg m) k = MIMEHeader_values (fieldsEnvelope msg m) k.
Proof.
  intros. unfold headerFields. by rewrite identifiers_frame, fieldsDate_frame.
Qed.

Lemma envelope_Subject msg m :
  MIMEHeader_values (fieldsEnvelope msg m) "Subject" = Some [EncodeHeader (Subject msg)].
Proof.
  unfold fieldsEnvelope. rewrite !values_cond_set_ne by key_ne.
  destruct (Sender msg); rewrite ?values_Set_ne by key_ne; apply values_Set_eq.
Qed.

Lemma envelope_From msg m :
  MIMEHeader_values (fieldsEnvelope msg m) "From"
  = match Sender msg with
    | Some a => Some [EncodeHeader (AddressString a)]
    | None => MIMEHeader_values m "From"
    end.
Proof.
  unfold fieldsEnvelope. rewrite !values_cond_set_ne by key_ne.
  destruct (Sender msg); [apply values_Set_eq|by rewrite values_Set_ne by key_ne].
Qed.

Lemma envelope_ReplyTo msg m :
  MIMEHeader_values (fieldsEnvelope msg m) "Reply-To"
  = if 0 <? slice_len (ReplyTos msg)
    then Some [EncodeHeader (formatAddressList (ReplyTos msg))]
    else MIMEHeader_values m "Reply-To".
Proof.
  unfold fieldsEnvelope. rewrite !values_cond_set_ne by key_ne.
  rewrite values_cond_set_eq. destruct (0 <? _); [done|].
  destruct (Sender msg); by rewrite !values_Set_ne by key_ne.
Qed.

Lemma envelope_To msg m :
  MIMEHeader_values (fieldsEnvelope msg m) "To"
  = if 0 <? slice_len (ToList msg)
    then Some [EncodeHeader (formatAddressList (ToList msg))]
    else MIMEHeader_values m "To".
Proof.
  unfold fieldsEnvelope. rewrite !values_cond_set_ne by key_ne.
  rewrite values_cond_set_eq. destruct (0 <? slice_len (ToList msg)); [done|].
  rewrite values_cond_set_ne by key_ne.
  destruct (Sender msg); by rewrite !values_Set_ne by key_ne.
Qed.

Lemma envelope_Cc msg m :
  MIMEHeader_values (fieldsEnvelope msg m) "Cc"
  = if 0 <? slice_len (CCList msg)
    then Some [EncodeHeader (formatAddressList (CCList msg))]
    else MIMEHeader_values m "Cc".
Proof.
  unfold fieldsEnvelope. rewrite !values_cond_set_ne by key_ne.
  rewrite values_cond_set_eq. destruct (0 <? slice_len (CCList msg)); [done|].
  rewrite !values_cond_set_ne by key_ne.
  destruct (Sender msg); by rewrite !values_Set_ne by key_ne.
Qed.

Lemma envelope_Bcc msg m :
  MIMEHeader_values (fieldsEnvelope msg m) "Bcc"
  = if 0 <? slice_len (BCCList msg)
    then Some [EncodeHeader (formatAddressList (BCCList msg))]
    else MIMEHeader_values m "Bcc".
Proof.
  unfold fieldsEnvelope.
  rewrite values_cond_set_eq. destruct (0 <? slice_len (BCCList msg)); [done|].
  rewrite !values_cond_set_ne by key_ne.
  destruct (Sender msg); by rewrite !values_Set_ne by key_ne.
Qed.

Lemma Header_Date_ext m m' :
  MIMEHeader_Get m "Date" = MIMEHeader_Get m' "Date" → Header_Date m = Header_Date m'.
Proof. intros H. unfold Header_Date. by rewrite H. Qed.

Lemma date_view msg σ stamp :
  Header_Date
    (match Header msg with
     | Some _ => MIMEHeader_Set (fieldsEnvelope msg (deref σ (Header msg))) "X-Pm-Date" stamp
     | None => ∅
     end)
  = Header_Date (deref σ (Header msg)).
Proof.
  destruct (Header msg) as [l|]; [|done]. apply Header_Date_ext, Get_of_values.
  rewrite values_Set_ne by key_ne. apply fieldsEnvelope_frame; key_ne.
Qed.

Lemma headerFields_date msg m k :
  canon "X-Pm-External-Id" ≠ canon k → canon "Message-Id" ≠ canon k →
  canon "X-Pm-Internal-Id" ≠ canon k → canon "References" ≠ canon k →
  canon "X-Pm-ConversationID-Id" ≠ canon k →
  MIMEHeader_values (headerFields msg m) k
  = MIMEHeader_values (fieldsDate msg (fieldsEnvelope msg m)) k.
Proof. intros. unfold headerFields. by rewrite identifiers_frame. Qed.

Lemma built_X_Pm_Date msg σ :
  0 < Time msg →
  MIMEHeader_Get (builtHeader msg σ) "X-Pm-Date" = FormatRFC1123Z (Time msg).
Proof.
  intros Ht%Z.ltb_lt. rewrite builtHeader_fields.
  rewrite (Get_of_values _ (fieldsDate msg (fieldsEnvelope msg (deref σ (Header msg))))
             "X-Pm-Date" "X-Pm-Date") by (apply headerFields_date; key_ne).
  unfold fieldsDate. rewrite Ht.
  destruct (Header_Date _) as [t [e|]]; [|destruct (IsZero t); cbn [cond_set]];
    rewrite ?(Get_Set_ne _ "Date" "X-Pm-Date") by key_ne; apply Get_Set_eq.
Qed.

Lemma built_Date msg σ :
  0 < Time msg →
  MIMEHeader_values (builtHeader msg σ) "Date"
  = match Header_Date (deref σ (Header msg)) with
    | (_, Some _) => Some [FormatRFC1123Z (Time msg)]
    | (t, None) => if IsZero t then Some [FormatRFC1123Z (Time msg)]
                   else MIMEHeader_values (deref σ (Header msg)) "Date"
    end.
Proof.
  intros Ht%Z.ltb_lt. rewrite builtHeader_fields.
  rewrite headerFields_date by key_ne.
  unfold fieldsDate. rewrite Ht, date_view.
  destruct (Header_Date _) as [t [e|]]; [apply values_Set_eq|].
  rewrite values_cond_set_eq. destruct (IsZero t); [done|].
  rewrite values_Set_ne by key_ne. apply fieldsEnvelope_frame; key_ne.
Qed.

End EnvelopeFacts.

Section AttachmentFacts.
Context `{C : Collaborators}.
Implicit Types (m : MIMEHeader) (k : string) (σ : heap) (h : loc).
Local Abbreviation canon := CanonicalMIMEHeaderKey.

Lemma forward_step {B : Type} att h k m σ (rest : St B) :
  ∃ m',
    (v ← Get (AttHeader att) k; when (negb (String.eqb v "")) (SetField h k v);; rest)
      (<[h := m]> σ)
    = rest (<[h := m']> σ) ∧
    ∀ k', canon k ≠ canon k' → MIMEHeader_values m' k' = MIMEHeader_values m k'.
Proof.
  rewrite run_bind. unfold Get at 1. cbv beta iota.
  destruct (negb _).
  - eexists. split.
    + erewrite run_seq; [done|]. apply run_SetField.
    + intros k' Hk'. by apply values_Set_ne.
  - exists m. split; [|done]. by erewrite run_seq.
Qed.

Lemma GetAttachmentHeader_disposition att σ :
  MIMEHeader_Get (builtAttachment att σ) "Content-Disposition"
  = FormatMediaType
      (if Contains (MIMEHeader_Get (deref σ (AttHeader att)) "Content-Disposition") "inline"
       then "inline" else "attachment")
      [("filename", EncodeHeader (AttName att))].
Proof.
  unfold builtAttachment, GetAttachmentHeader.
  rewrite run_bind. unfold Get at 1.
  rewrite run_bind. unfold make at 1.
  set (h := fresh (dom σ)).
  do 3 (erewrite run_seq by apply run_SetField).
  cbn [foldr].
  rewrite run_bind.
  match goal with |- context [<[h := ?m0]> σ] => set (m3 := m0) end.
  assert (MIMEHeader_values m3 "Content-Disposition" = Some [FormatMediaType
      (if Contains (MIMEHeader_Get (deref σ (AttHeader att)) "Content-Disposition") "inline"
       then "inline" else "attachment")
      [("filename", EncodeHeader (AttName att))]]) as Hm3 by apply values_Set_eq.
  clearbody m3.
  destruct (forward_step att h "Content-Id" m3 σ
    (v ← Get (AttHeader att) "Content-Description";
     when (negb (String.eqb v "")) (SetField h "Content-Description" v);;
     v ← Get (AttHeader att) "Content-Location";
     when (negb (String.eqb v "")) (SetField h "Content-Location" v);;
     mret tt)) as (m4 & -> & Hm4).
  destruct (forward_step att h "Content-Description" m4 σ
    (v ← Get (AttHeader att) "Content-Location";
     when (negb (String.eqb v "")) (SetField h "Content-Location" v);;
     mret tt)) as (m5 & -> & Hm5).
  destruct (forward_step att h "Content-Location" m5 σ (mret tt)) as (m6 & -> & Hm6).
  rewrite !run_ret, deref_insert, Get_values.
  rewrite Hm6, Hm5, Hm4, Hm3 by key_ne. done.
Qed.

End AttachmentFacts.

(** * The claims *)

(** C1, as stated, fails: when the header-value decoding of
    ["Bad <a@example.com>, Name2 <b@example.com>"] fails,
    [sanitizeAddressList] returns the decode error and no address; the
    bracket fallback is not reached. *)
Lemma sanitizeAddressList_no_fallback_on_decode_failure :
  MIMEHeader_Get Examples.from_header "From" = example_raw ∧
  snd (DecodeHeader (Collaborators := Toy.collaborators false) example_raw) ≠ None ∧
  sanitizeAddressList (C := Toy.collaborators false) Examples.from_header "From"
  = Ret (None, Some "mime: invalid encoded word") ∧
  ∀ addrs, sanitizeAddressList (C := Toy.collaborators false) Examples.from_header "From"
           ≠ Ret (Some addrs, None).
Proof.
  split_and!; [reflexivity|vm_compute; discriminate|reflexivity|].
  intros addrs. vm_compute. discriminate.
Qed.

(** C1, amended: for the raw field value
    ["Bad <a@example.com>, Name2 <b@example.com>"], when the header-value
    decoding succeeds and the strict parse of the decoded value fails,
    [sanitizeAddressList] returns what the address-list parser makes of the
    bracket spans joined as ["<a@example.com>, <b@example.com>"]: the
    addresses a@example.com and b@example.com, in that order, when the
    parser accepts that string. *)
Theorem sanitizeAddressList_bracket_fallback `{C : Collaborators}
    (h : MIMEHeader) (field decoded : string) (addrs : slice Address) (e : error) :
  MIMEHeader_Get h field = example_raw →
  DecodeHeader example_raw = (decoded, None) →
  ParseAddressList (parseAddressComment decoded) = (addrs, Some e) →
  sanitizeAddressList h field
  = Ret (ParseAddressList "<a@example.com>, <b@example.com>") ∧
  ∀ a b,
    ParseAddressList "<a@example.com>, <b@example.com>" = (Some [a; b], None) →
    sanitizeAddressList h field = Ret (Some [a; b], None).
Proof.
  intros Hraw Hdec Hparse.
  pose proof (sanitize_fallback_example h field decoded addrs e Hraw Hdec Hparse) as Hrun.
  split; [done|]. intros a b Hab. by rewrite Hrun, Hab.
Qed.

Lemma sanitizeAddressList_bracket_fallback_witness :
  MIMEHeader_Get Examples.from_header "From" = example_raw ∧
  DecodeHeader (Collaborators := Toy.collaborators true) example_raw = (example_raw, None) ∧
  ParseAddressList (Collaborators := Toy.collaborators true)
    (parseAddressComment (Collaborators := Toy.collaborators true) example_raw)
  = (None, Some "mail: invalid address list") ∧
  sanitizeAddressList (C := Toy.collaborators true) Examples.from_header "From"
  = Ret (Some [mkAddress "" "a@example.com"; mkAddress "" "b@example.com"], None).
Proof.
  split_and!; [reflexivity|reflexivity|reflexivity|].
  apply (sanitizeAddressList_bracket_fallback (C := Toy.collaborators true)
           Examples.from_header "From" example_raw None "mail: invalid address list");
    reflexivity.
Defined.

(** C2, as stated, fails: with ID ["a"] and a pre-existing [References]
    value ["<abc@x>"], which contains ["a"] as a substring, no reference is
    appended, and the built [References] does not contain
    ["<a@protonmail.internalid>"] at all. *)
Lemma GetHeader_reference_suppressed_by_substring :
  ID (Examples.message "a" "" 5 (Some 1%positive)) ≠ "" ∧
  MIMEHeader_Get
    (builtHeader (C := Toy.collaborators true)
       (Examples.message "a" "" 5 (Some 1%positive)) Examples.store) "References"
  = "<abc@x>" ∧
  Contains
    (MIMEHeader_Get
       (builtHeader (C := Toy.collaborators true)
          (Examples.message "a" "" 5 (Some 1%positive)) Examples.store) "References")
    "<a@protonmail.internalid>" = false.
Proof. split_and!; [discriminate|reflexivity|reflexivity]. Qed.

(** C2, amended: for every Message with a non-empty ID, the header built by
    [GetHeader] has [X-Pm-Internal-Id] equal to ID, and its [References]
    value is the pre-existing value after the two reference steps (for ID,
    then for ConversationID), each of which appends its reference unless
    the identifier already occurs in the value as a substring.  So the
    built value contains ID; when the pre-existing value does not contain
    ID, [" <ID@InternalIDDomain>"] is appended to it and the token is
    present; when it already contains ID, the ID step appends nothing; and
    running [GetHeader] again on the built header leaves [References] as it
    is. *)
Theorem GetHeader_internal_id_references `{C : Collaborators} (msg : Message) (σ : heap) :
  ID msg ≠ "" →
  let old := MIMEHeader_Get (deref σ (Header msg)) "References" in
  let new := MIMEHeader_Get (builtHeader msg σ) "References" in
  let token := "<" +:+ ID msg +:+ "@" +:+ InternalIDDomain +:+ ">" in
  MIMEHeader_Get (builtHeader msg σ) "X-Pm-Internal-Id" = ID msg ∧
  new = addReference (ConversationID msg) ConversationIDDomain
          (addReference (ID msg) InternalIDDomain old) ∧
  Contains new (ID msg) = true ∧
  (Contains old (ID msg) = false →
   addReference (ID msg) InternalIDDomain old = old +:+ " " +:+ token ∧
   Contains new token = true) ∧
  (Contains old (ID msg) = true → addReference (ID msg) InternalIDDomain old = old) ∧
  MIMEHeader_Get
    (builtHeader (with_Header (Some (GetHeader msg σ).1) msg) (GetHeader msg σ).2)
    "References" = new.
Proof.
  intros Hid old new token.
  assert (new = addReference (ConversationID msg) ConversationIDDomain
                  (addReference (ID msg) InternalIDDomain old)) as Hnew.
  { unfold new. rewrite builtHeader_fields. apply references_headerFields. }
  split_and!.
  - rewrite builtHeader_fields. by apply internal_id_headerFields.
  - done.
  - rewrite Hnew. by apply addReference_mono, addReference_contains.
  - intros Hold. rewrite Hnew, (addReference_absent _ _ _ Hid Hold). split; [done|].
    apply addReference_mono, Contains_app_r, Contains_reference_token.
  - apply addReference_present.
  - rewrite builtHeader_fields, references_headerFields.
    cbn [ID ConversationID Header with_Header].
    rewrite GetHeader_run. cbn [fst snd]. rewrite deref_insert.
    rewrite <- builtHeader_fields. fold new. rewrite Hnew.
    apply addReference_twice.
Qed.

Lemma GetHeader_internal_id_references_witness :
  ID (Examples.message "id1" "" 5 (Some 1%positive)) ≠ "" ∧
  MIMEHeader_Get
    (builtHeader (C := Toy.collaborators true)
       (Examples.message "id1" "" 5 (Some 1%positive)) Examples.store) "X-Pm-Internal-Id"
  = "id1" ∧
  MIMEHeader_Get
    (builtHeader (C := Toy.collaborators true)
       (Examples.message "id1" "" 5 (Some 1%positive)) Examples.store) "References"
  = "<abc@x> <id1@protonmail.internalid>".
Proof.
  destruct (GetHeader_internal_id_references (C := Toy.collaborators true)
              (Examples.message "id1" "" 5 (Some 1%positive)) Examples.store)
    as (Hx & Hrefs & _); [discriminate|].
  split_and!; [discriminate|exact Hx|].
  rewrite Hrefs. reflexivity.
Defined.

(** C3: for every Message with [Time > 0], [GetHeader] sets [X-Pm-Date] to
    the RFC 1123 rendering (numeric zone) of [Time]; it sets [Date] to the
    same value when the pre-existing [Date] field is absent (empty), does
    not parse, or parses to the zero time; and a pre-existing [Date] that
    parses to a non-zero time is left as it is, whatever [Time] is. *)
Theorem GetHeader_dates `{C : Collaborators} (msg : Message) (σ : heap) :
  0 < Time msg →
  let old := deref σ (Header msg) in
  let new := builtHeader msg σ in
  let stamp := FormatRFC1123Z (Time msg) in
  MIMEHeader_Get new "X-Pm-Date" = stamp ∧
  (MIMEHeader_Get old "Date" = "" → MIMEHeader_Get new "Date" = stamp) ∧
  (∀ t e, ParseDate (MIMEHeader_Get old "Date") = (t, Some e) →
          MIMEHeader_Get new "Date" = stamp) ∧
  (∀ t, ParseDate (MIMEHeader_Get old "Date") = (t, None) → IsZero t = true →
        MIMEHeader_Get new "Date" = stamp) ∧
  (∀ t, MIMEHeader_Get old "Date" ≠ "" →
        ParseDate (MIMEHeader_Get old "Date") = (t, None) → IsZero t = false →
        MIMEHeader_values new "Date" = MIMEHeader_values old "Date" ∧
        MIMEHeader_Get new "Date" = MIMEHeader_Get old "Date").
Proof.
  intros Htime old new stamp.
  pose proof (built_Date msg σ Htime) as Hdate. fold old new stamp in Hdate.
  unfold Header_Date in Hdate.
  split_and!.
  - by apply built_X_Pm_Date.
  - intros Habsent. rewrite Habsent in Hdate. cbn in Hdate.
    by rewrite Get_values, Hdate.
  - intros t e Hparse. rewrite Get_values, Hdate.
    destruct (String.eqb _ ""); [done|]. by rewrite Hparse.
  - intros t Hparse Hzero. rewrite Get_values, Hdate.
    destruct (String.eqb _ ""); [done|]. by rewrite Hparse, Hzero.
  - intros t Hpresent%String.eqb_neq Hparse Hzero.
    rewrite Hpresent, Hparse, Hzero in Hdate. split; [done|]. by apply Get_of_values.
Qed.

Lemma GetHeader_dates_witness :
  0 < Time (Examples.message "a" "" 5 (Some 1%positive)) ∧
  MIMEHeader_Get
    (builtHeader (C := Toy.collaborators true)
       (Examples.message "a" "" 5 (Some 1%positive)) Examples.store) "X-Pm-Date"
  = "ttttt" ∧
  MIMEHeader_Get
    (builtHeader (C := Toy.collaborators true)
       (Examples.message "a" "" 5 (Some 1%positive)) Examples.store) "Date"
  = "ttt".
Proof.
  destruct (GetHeader_dates (C := Toy.collaborators true)
              (Examples.message "a" "" 5 (Some 1%positive)) Examples.store)
    as (Hx & _ & _ & _ & Hkeep); [reflexivity|].
  split_and!; [reflexivity|exact Hx|].
  destruct (Hkeep 3) as [_ Hget]; [vm_compute; discriminate|reflexivity|reflexivity|].
  exact Hget.
Defined.

(** C4 fails on the code: for a Message whose [Header] is not nil,
    [GetHeader] returns that very map and writes into it.  Here the map of
    the message holds [Subject: Hello] before the call and [Subject: Hi]
    after it. *)
Theorem GetHeader_writes_through_message_header :
  Some (GetHeader (C := Toy.collaborators true)
          (Examples.message "a" "Hi" 0 (Some 1%positive)) Examples.store).1
  = Header (Examples.message "a" "Hi" 0 (Some 1%positive)) ∧
  MIMEHeader_Get
    (deref Examples.store (Header (Examples.message "a" "Hi" 0 (Some 1%positive))))
    "Subject" = "Hello" ∧
  MIMEHeader_Get
    (deref (GetHeader (C := Toy.collaborators true)
              (Examples.message "a" "Hi" 0 (Some 1%positive)) Examples.store).2
       (Header (Examples.message "a" "Hi" 0 (Some 1%positive))))
    "Subject" = "Hi" ∧
  deref (GetHeader (C := Toy.collaborators true)
           (Examples.message "a" "Hi" 0 (Some 1%positive)) Examples.store).2
    (Header (Examples.message "a" "Hi" 0 (Some 1%positive)))
  ≠ deref Examples.store (Header (Examples.message "a" "Hi" 0 (Some 1%positive))).
Proof.
  split_and!; [reflexivity|reflexivity|vm_compute; reflexivity|].
  intros Heq. apply (f_equal (λ m, MIMEHeader_Get m "Subject")) in Heq.
  vm_compute in Heq. discriminate.
Qed.

(** C5: for every header and field name, when the raw value of the field
    is not empty and the header-value decoder fails on it,
    [sanitizeAddressList] returns that decode error and no addresses. *)
Theorem sanitizeAddressList_decode_failure `{C : Collaborators}
    (h : MIMEHeader) (field decoded : string) (e : error) :
  MIMEHeader_Get h field ≠ "" →
  DecodeHeader (MIMEHeader_Get h field) = (decoded, Some e) →
  sanitizeAddressList h field = Ret (None, Some e).
Proof. apply sanitize_decode_error. Qed.

Lemma sanitizeAddressList_decode_failure_witness :
  MIMEHeader_Get Examples.from_header "From" ≠ "" ∧
  DecodeHeader (Collaborators := Toy.collaborators false)
    (MIMEHeader_Get Examples.from_header "From")
  = (example_raw, Some "mime: invalid encoded word") ∧
  sanitizeAddressList (C := Toy.collaborators false) Examples.from_header "From"
  = Ret (None, Some "mime: invalid encoded word").
Proof.
  split_and!.
  - vm_compute. discriminate.
  - reflexivity.
  - apply (sanitizeAddressList_decode_failure (C := Toy.collaborators false)
             Examples.from_header "From" example_raw).
    + vm_compute. discriminate.
    + reflexivity.
Defined.

(** C6, as stated, fails: with an empty [Subject] in the Message and
    [Subject: Hello] in the pre-existing header, the built header's
    [Subject] is the encoding of the empty string, not [Hello]. *)
Lemma GetHeader_rewrites_empty_Subject :
  Subject (Examples.message "a" "" 5 (Some 1%positive)) = "" ∧
  MIMEHeader_Get
    (deref Examples.store (Header (Examples.message "a" "" 5 (Some 1%positive))))
    "Subject" = "Hello" ∧
  MIMEHeader_Get
    (builtHeader (C := Toy.collaborators true)
       (Examples.message "a" "" 5 (Some 1%positive)) Examples.store) "Subject"
  = "" ∧
  MIMEHeader_Get
    (builtHeader (C := Toy.collaborators true)
       (Examples.message "a" "" 5 (Some 1%positive)) Examples.store) "Subject"
  ≠ MIMEHeader_Get
      (deref Examples.store (Header (Examples.message "a" "" 5 (Some 1%positive))))
      "Subject".
Proof. split_and!; try reflexivity. vm_compute. discriminate. Qed.

(** C6, amended: [GetHeader] always sets [Subject] to the encoded Subject
    of the Message, also when it is empty; it overwrites [From], [Reply-To],
    [To], [Cc] and [Bcc] only when the Message has a Sender, respectively a
    non-empty list, and otherwise leaves the pre-existing values of the
    field as they are. *)
Theorem GetHeader_envelope_fields `{C : Collaborators} (msg : Message) (σ : heap) :
  let old := deref σ (Header msg) in
  let new := builtHeader msg σ in
  MIMEHeader_values new "Subject" = Some [EncodeHeader (Subject msg)] ∧
  (Sender msg = None → MIMEHeader_values new "From" = MIMEHeader_values old "From") ∧
  (slice_len (ReplyTos msg) = 0 →
   MIMEHeader_values new "Reply-To" = MIMEHeader_values old "Reply-To") ∧
  (slice_len (ToList msg) = 0 →
   MIMEHeader_values new "To" = MIMEHeader_values old "To") ∧
  (slice_len (CCList msg) = 0 →
   MIMEHeader_values new "Cc" = MIMEHeader_values old "Cc") ∧
  (slice_len (BCCList msg) = 0 →
   MIMEHeader_values new "Bcc" = MIMEHeader_values old "Bcc") ∧
  (∀ a, Sender msg = Some a →
        MIMEHeader_values new "From" = Some [EncodeHeader (AddressString a)]) ∧
  (0 < slice_len (ReplyTos msg) →
   MIMEHeader_values new "Reply-To"
   = Some [EncodeHeader (formatAddressList (ReplyTos msg))]) ∧
  (0 < slice_len (ToList msg) →
   MIMEHeader_values new "To" = Some [EncodeHeader (formatAddressList (ToList msg))]) ∧
  (0 < slice_len (CCList msg) →
   MIMEHeader_values new "Cc" = Some [EncodeHeader (formatAddressList (CCList msg))]) ∧
  (0 < slice_len (BCCList msg) →
   MIMEHeader_values new "Bcc" = Some [EncodeHeader (formatAddressList (BCCList msg))]).
Proof.
  intros old new. unfold new. rewrite builtHeader_fields. fold old.
  rewrite !headerFields_envelope by key_ne.
  rewrite envelope_Subject, envelope_From, envelope_ReplyTo, envelope_To,
    envelope_Cc, envelope_Bcc.
  split_and!; try done.
  - by intros ->.
  - by intros ->.
  - by intros ->.
  - by intros ->.
  - by intros ->.
  - by intros a ->.
  - by intros ->%Z.ltb_lt.
  - by intros ->%Z.ltb_lt.
  - by intros ->%Z.ltb_lt.
  - by intros ->%Z.ltb_lt.
Qed.

Lemma GetHeader_envelope_fields_witness :
  Sender (Examples.message "a" "" 5 (Some 1%positive)) = None ∧
  MIMEHeader_values
    (builtHeader (C := Toy.collaborators true)
       (Examples.message "a" "" 5 (Some 1%positive)) Examples.store) "Subject"
  = Some [""] ∧
  MIMEHeader_values
    (builtHeader (C := Toy.collaborators true)
       (Examples.message "a" "" 5 (Some 1%positive)) Examples.store) "From"
  = MIMEHeader_values
      (deref Examples.store (Header (Examples.message "a" "" 5 (Some 1%positive))))
      "From".
Proof.
  destruct (GetHeader_envelope_fields (C := Toy.collaborators true)
              (Examples.message "a" "" 5 (Some 1%positive)) Examples.store)
    as (Hs & Hf & _).
  split_and!; [reflexivity|exact Hs|apply Hf; reflexivity].
Defined.

(** C7, as stated, fails: a nil map is a header mapping too, [parseHeader]
    reads it as an empty header and attaches it as it is, so the [Header] of
    the returned Message is nil. *)
Lemma parseHeader_nil_mapping :
  ∃ m, parseHeader (C := Toy.collaborators true) Examples.store None = Ret (m, None) ∧
       Header m = None.
Proof. eexists. split; reflexivity. Qed.

(** C7, amended: for every raw header mapping, [parseHeader] returns a
    Message and a nil error, whatever the decoder and the parsers answer
    for each field, and the [Header] of the returned Message is the input
    mapping itself: it is nil exactly when the input mapping is nil. *)
Theorem parseHeader_never_fails `{C : Collaborators} (σ : heap) (h : href) :
  ∃ m, parseHeader σ h = Ret (m, None) ∧ Header m = h ∧ (Header m = None ↔ h = None).
Proof.
  destruct (parseHeader_returns σ h) as (m & Hm & Hh).
  exists m. split_and!; [done|done|]. by rewrite Hh.
Qed.

(** C8: for every Attachment, the [Content-Disposition] that
    [GetAttachmentHeader] produces is the media-type formatting of a
    disposition that is [inline] if and only if the [Content-Disposition]
    value of the attachment's original header contains the substring
    [inline], and [attachment] otherwise. *)
Theorem GetAttachmentHeader_disposition_inline `{C : Collaborators}
    (att : Attachment) (σ : heap) :
  let original := MIMEHeader_Get (deref σ (AttHeader att)) "Content-Disposition" in
  ∃ disposition,
    MIMEHeader_Get (builtAttachment att σ) "Content-Disposition"
    = FormatMediaType disposition [("filename", EncodeHeader (AttName att))] ∧
    (disposition = "inline" ↔ Contains original "inline" = true) ∧
    (disposition = "attachment" ↔ Contains original "inline" = false).
Proof.
  intros original.
  exists (if Contains original "inline" then "inline" else "attachment").
  split; [apply GetAttachmentHeader_disposition|].
  destruct (Contains original "inline"); done.
Qed.

Lemma GetAttachmentHeader_disposition_inline_witness :
  Contains (MIMEHeader_Get (deref Examples.store (AttHeader Examples.attachment))
              "Content-Disposition") "inline" = true ∧
  MIMEHeader_Get
    (builtAttachment (C := Toy.collaborators true) Examples.attachment Examples.store)
    "Content-Disposition"
  = "inline; filename=a.png".
Proof.
  destruct (GetAttachmentHeader_disposition_inline (C := Toy.collaborators true)
              Examples.attachment Examples.store) as (d & Hget & Hin & _).
  split; [reflexivity|].
  rewrite Hget. replace d with "inline"; [reflexivity|].
  symmetry. apply Hin. reflexivity.
Defined.

(** C9: [sanitizeAddressList] is total: for every header, field name and
    collaborators it returns, without a panic.  The bracket scan ends on
    every field value within one iteration per byte, with the loop
    condition false, and a larger budget does not change what it returns.
    In each iteration the rest to scan, cut at [open],
    begins with an open bracket; the index [close] of the next close
    bracket is at least 1 and below the length, so the three slices are in
    range; and the rest left for the next iteration is strictly shorter. *)
Theorem sanitizeAddressList_total `{C : Collaborators} (h : MIMEHeader) (field : string) :
  (∃ r, sanitizeAddressList h field = Ret r) ∧
  (∀ addrStr fuel,
     (String.length addrStr ≤ fuel)%nat →
     ∃ st, scan_loop fuel (mkScan addrStr [] (Index addrStr "<") (LastIndex addrStr ">"))
           = Ret st ∧ scan_guard st = false) ∧
  (∀ fuel fuel' st st',
     scan_loop fuel st = Ret st' → (fuel ≤ fuel')%nat → scan_loop fuel' st = Ret st') ∧
  (∀ st,
     scan_inv st → scan_guard st = true →
     ∃ s1 piece s2,
       slice_from (scan_addrStr st) (scan_open st) = Ret s1 ∧
       HasPrefix s1 "<" = true ∧
       1 ≤ Index s1 ">" < len s1 ∧
       slice_to s1 (Index s1 ">" + 1) = Ret piece ∧
       slice_from s1 (Index s1 ">") = Ret s2 ∧
       len s2 < len (scan_addrStr st) ∧
       scan_body st =
         Ret (mkScan s2 (scan_addrList st ++ [piece]) (Index s2 "<") (LastIndex s2 ">")) ∧
       scan_inv (mkScan s2 (scan_addrList st ++ [piece]) (Index s2 "<") (LastIndex s2 ">"))).
Proof.
  split_and!.
  - apply sanitize_returns.
  - intros addrStr fuel Hfuel. by apply scan_loop_total.
  - intros fuel fuel' st st'. apply scan_loop_fuel.
  - intros st Hinv Hguard.
    destruct (scan_body_spec st Hinv Hguard) as (s1 & piece & s2 & H).
    exists s1, piece, s2. by destruct_and!.
Qed.

Lemma sanitizeAddressList_total_witness :
  (∃ r, sanitizeAddressList (C := Toy.collaborators true) Examples.from_header "From" = Ret r) ∧
  (∃ st, scan_loop 42 (mkScan example_raw [] 4 41) = Ret st ∧ scan_guard st = false) ∧
  (∃ s1 piece s2,
     slice_from example_raw 4 = Ret s1 ∧
     HasPrefix s1 "<" = true ∧
     1 ≤ Index s1 ">" < len s1 ∧
     slice_to s1 (Index s1 ">" + 1) = Ret piece ∧
     slice_from s1 (Index s1 ">") = Ret s2 ∧
     len s2 < len example_raw ∧
     scan_body (mkScan example_raw [] 4 41) =
       Ret (mkScan s2 ([] ++ [piece]) (Index s2 "<") (LastIndex s2 ">")) ∧
     scan_inv (mkScan s2 ([] ++ [piece]) (Index s2 "<") (LastIndex s2 ">"))).
Proof.
  destruct (sanitizeAddressList_total (C := Toy.collaborators true)
              Examples.from_header "From") as (Hret & Hloop & _ & Hstep).
  split_and!.
  - exact Hret.
  - apply (Hloop example_raw 42%nat). vm_compute. lia.
  - apply (Hstep (mkScan example_raw [] 4 41)); [split; reflexivity|reflexivity].
Defined.

(** C10: [parseHeader] reads element 0 of a sanitized list only when the
    list is not empty.  It never panics; and for every header whose [From]
    field sanitizes without error to an empty list the Sender stays nil,
    and one whose [Reply-To] field does so leaves ReplyTos at the value
    [NewMessage] gave it. *)
Theorem parseHeader_guards_first_address `{C : Collaborators} (σ : heap) (h : href) :
  (∃ m, parseHeader σ h = Ret (m, None)) ∧
  (∀ addrs,
     sanitizeAddressList (deref σ h) "From" = Ret (addrs, None) →
     slice_len addrs = 0 →
     ∃ m, parseHeader σ h = Ret (m, None) ∧ Sender m = None) ∧
  (∀ addrs,
     sanitizeAddressList (deref σ h) "Reply-To" = Ret (addrs, None) →
     slice_len addrs = 0 →
     ∃ m, parseHeader σ h = Ret (m, None) ∧ ReplyTos m = ReplyTos NewMessage).
Proof.
  split_and!.
  - destruct (parseHeader_returns σ h) as (m & Hm & _). eauto.
  - apply parseHeader_empty_From.
  - apply parseHeader_empty_ReplyTo.
Qed.

Lemma parseHeader_guards_first_address_witness :
  sanitizeAddressList (C := Toy.collaborators true)
    (deref Examples.store (Some 2%positive)) "From" = Ret (Some [], None) ∧
  sanitizeAddressList (C := Toy.collaborators true)
    (deref Examples.store (Some 2%positive)) "Reply-To" = Ret (Some [], None) ∧
  slice_len (Some ([] : list Address)) = 0 ∧
  (∃ m, parseHeader (C := Toy.collaborators true) Examples.store (Some 2%positive)
        = Ret (m, None) ∧ Sender m = None) ∧
  (∃ m, parseHeader (C := Toy.collaborators true) Examples.store (Some 2%positive)
        = Ret (m, None) ∧ ReplyTos m = None).
Proof.
  destruct (parseHeader_guards_first_address (C := Toy.collaborators true)
              Examples.store (Some 2%positive)) as (_ & Hfrom & Hreply).
  split_and!; [reflexivity|reflexivity|reflexivity| |].
  - apply (Hfrom (Some [])); reflexivity.
  - apply (Hreply (Some [])); reflexivity.
Defined.

(** * Further properties *)

(** ** Lookups by stored key *)

(** [i] is none of the listed names, given that it is none of a longer list. *)
Ltac names_out Hi :=
  let H := fresh in
  intros H; apply Hi; revert H; rewrite ?elem_of_cons, ?elem_of_nil; tauto.

(** The canonical form of a literal key differs from [i], which is none of
    the listed names. *)
Ltac key_out Hi :=
  vm_compute; intros <-; apply Hi; rewrite ?elem_of_cons; auto 20.

Section RawLookups.
Context `{C : Collaborators}.
Implicit Types (m : MIMEHeader) (i k : string) (msg : Message).

Lemma lookup_Set m k v i :
  MIMEHeader_Set m k v !! i
  = if decide (CanonicalMIMEHeaderKey k = i) then Some [v] else m !! i.
Proof. unfold MIMEHeader_Set. apply lookup_insert. Qed.

Lemma lookup_Set_ne m k v i :
  CanonicalMIMEHeaderKey k ≠ i → MIMEHeader_Set m k v !! i = m !! i.
Proof. intros. unfold MIMEHeader_Set. by apply lookup_insert_ne. Qed.

Lemma lookup_cond_set_ne b m k v i :
  CanonicalMIMEHeaderKey k ≠ i → cond_set b k v m !! i = m !! i.
Proof. intros. destruct b; [by apply lookup_Set_ne|done]. Qed.

Lemma Set_present m k v :
  MIMEHeader_values m k = Some [v] → MIMEHeader_Set m k v = m.
Proof. intros H. unfold MIMEHeader_Set. by apply insert_id. Qed.

Lemma cond_set_present b m k v :
  (b = true → MIMEHeader_values m k = Some [v]) → cond_set b k v m = m.
Proof. destruct b; [intros H; by apply Set_present, H|done]. Qed.

Lemma fieldsEnvelope_lookup msg m i :
  i ∉ ["Subject"; "From"; "Reply-To"; "To"; "Cc"; "Bcc"] →
  fieldsEnvelope msg m !! i = m !! i.
Proof.
  intros Hi. unfold fieldsEnvelope.
  rewrite !lookup_cond_set_ne by key_out Hi.
  destruct (Sender msg); rewrite !lookup_Set_ne by key_out Hi; done.
Qed.

Lemma fieldsDate_lookup msg m i :
  i ∉ ["X-Pm-Date"; "Date"] → fieldsDate msg m !! i = m !! i.
Proof.
  intros Hi. unfold fieldsDate. destruct (0 <? Time msg); [|done].
  destruct (Header_Date _) as [t [e|]];
    rewrite ?lookup_cond_set_ne, ?lookup_Set_ne by key_out Hi; done.
Qed.

Lemma fieldsExternalID_lookup msg m i :
  i ∉ ["X-Pm-External-Id"; "Message-Id"] → fieldsExternalID msg m !! i = m !! i.
Proof.
  intros Hi. unfold fieldsExternalID. destruct (negb _); [|done].
  rewrite lookup_cond_set_ne, lookup_Set_ne by key_out Hi. done.
Qed.

Lemma fieldsInternalID_lookup msg m i :
  i ∉ ["Message-Id"; "X-Pm-Internal-Id"; "References"] →
  fieldsInternalID msg m !! i = m !! i.
Proof.
  intros Hi. unfold fieldsInternalID. destruct (negb _); [|done].
  rewrite lookup_cond_set_ne, lookup_Set_ne, lookup_cond_set_ne
    by key_out Hi. done.
Qed.

Lemma fieldsConversationID_lookup msg m i :
  i ∉ ["X-Pm-Conversationid-Id"; "References"] →
  fieldsConversationID msg m !! i = m !! i.
Proof.
  intros Hi. unfold fieldsConversationID. destruct (negb _); [|done].
  rewrite lookup_cond_set_ne, lookup_Set_ne by key_out Hi. done.
Qed.

Lemma headerFields_lookup msg m i :
  i ∉ headerFieldNames → headerFields msg m !! i = m !! i.
Proof.
  intros Hi. unfold headerFields, headerFieldNames in *.
  rewrite fieldsConversationID_lookup, fieldsInternalID_lookup, fieldsExternalID_lookup,
    fieldsDate_lookup, fieldsEnvelope_lookup by names_out Hi. done.
Qed.

End RawLookups.

(** ** Message-Id *)

Section IdentifierFacts.
Context `{C : Collaborators}.
Implicit Types (m : MIMEHeader) (i k : string) (msg : Message) (σ : heap).

Lemma bracketed_not_empty s t : String.eqb ("<" +:+ s +:+ t) "" = false.
Proof. done. Qed.

Lemma eqb_empty_false s : s ≠ "" → String.eqb s "" = false.
Proof. by intros H%String.eqb_neq. Qed.

(** The Message-Id the external-id block leaves. *)
Lemma external_Message_Id msg m :
  MIMEHeader_values (fieldsExternalID msg m) "Message-Id"
  = if negb (String.eqb (ExternalID msg) "") && String.eqb (MIMEHeader_Get m "Message-Id") ""
    then Some ["<" +:+ ExternalID msg +:+ ">"]
    else MIMEHeader_values m "Message-Id".
Proof.
  unfold fieldsExternalID. destruct (negb _); [|done]. cbn [andb].
  rewrite (Get_Set_ne _ "X-Pm-External-Id" "Message-Id") by key_ne.
  rewrite values_cond_set_eq. destruct (String.eqb _ ""); [done|].
  by rewrite values_Set_ne by key_ne.
Qed.

(** The Message-Id the internal-id block leaves. *)
Lemma internal_Message_Id msg m :
  MIMEHeader_values (fieldsInternalID msg m) "Message-Id"
  = if negb (String.eqb (ID msg) "") && String.eqb (MIMEHeader_Get m "Message-Id") ""
    then Some ["<" +:+ ID msg +:+ "@" +:+ InternalIDDomain +:+ ">"]
    else MIMEHeader_values m "Message-Id".
Proof.
  unfold fieldsInternalID. destruct (negb _); [|done]. cbn [andb].
  rewrite values_cond_set_ne, values_Set_ne by key_ne.
  apply values_cond_set_eq.
Qed.

Lemma headerFields_Message_Id msg m :
  MIMEHeader_values (headerFields msg m) "Message-Id"
  = MIMEHeader_values (fieldsInternalID msg (fieldsExternalID msg m)) "Message-Id".
Proof.
  unfold headerFields. rewrite fieldsConversationID_frame by key_ne.
  rewrite internal_Message_Id, internal_Message_Id.
  rewrite (Get_of_values (fieldsExternalID msg (fieldsDate msg (fieldsEnvelope msg m)))
             (fieldsExternalID msg m) "Message-Id" "Message-Id"); last first.
  { rewrite !external_Message_Id.
    rewrite (Get_of_values (fieldsDate msg (fieldsEnvelope msg m)) m "Message-Id" "Message-Id")
      by (rewrite fieldsDate_frame, fieldsEnvelope_frame by key_ne; done).
    by rewrite fieldsDate_frame, fieldsEnvelope_frame by key_ne. }
  destruct (_ && _); [done|].
  rewrite !external_Message_Id.
  rewrite (Get_of_values (fieldsDate msg (fieldsEnvelope msg m)) m "Message-Id" "Message-Id")
    by (rewrite fieldsDate_frame, fieldsEnvelope_frame by key_ne; done).
  by rewrite fieldsDate_frame, fieldsEnvelope_frame by key_ne.
Qed.

End IdentifierFacts.

(** X1: [GetHeader] never replaces a Message-Id that is already set.  When
    none is set, it becomes [<ExternalID>] if the ExternalID is not empty,
    else [<ID@InternalIDDomain>] if the ID is not empty, and stays unset
    when both are empty. *)
Theorem GetHeader_Message_Id `{C : Collaborators} (msg : Message) (σ : heap) :
  let old := deref σ (Header msg) in
  let new := builtHeader msg σ in
  (MIMEHeader_Get old "Message-Id" ≠ "" →
   MIMEHeader_values new "Message-Id" = MIMEHeader_values old "Message-Id") ∧
  (MIMEHeader_Get old "Message-Id" = "" → ExternalID msg ≠ "" →
   MIMEHeader_Get new "Message-Id" = "<" +:+ ExternalID msg +:+ ">") ∧
  (MIMEHeader_Get old "Message-Id" = "" → ExternalID msg = "" → ID msg ≠ "" →
   MIMEHeader_Get new "Message-Id" = "<" +:+ ID msg +:+ "@" +:+ InternalIDDomain +:+ ">") ∧
  (MIMEHeader_Get old "Message-Id" = "" → ExternalID msg = "" → ID msg = "" →
   MIMEHeader_values new "Message-Id" = MIMEHeader_values old "Message-Id").
Proof.
  intros old new. unfold new. rewrite builtHeader_fields. fold old.
  rewrite (Get_values (headerFields msg old)), headerFields_Message_Id, internal_Message_Id.
  rewrite (Get_values (fieldsExternalID msg old)), external_Message_Id.
  split_and!.
  - intros Hold%eqb_empty_false. rewrite Hold, !andb_false_r.
    rewrite <- Get_values, Hold. by rewrite andb_false_r.
  - intros Hold Hext%eqb_empty_false. rewrite Hold, Hext. cbn. by rewrite andb_false_r.
  - intros Hold -> Hid%eqb_empty_false. rewrite Hold, Hid. cbn.
    rewrite <- Get_values, Hold. done.
  - intros Hold -> ->. done.
Qed.

Lemma GetHeader_Message_Id_witness :
  MIMEHeader_Get (deref Examples.store (Header RoundTripExamples.message)) "Message-Id" = "" ∧
  ExternalID RoundTripExamples.message = "" ∧
  ID RoundTripExamples.message ≠ "" ∧
  MIMEHeader_Get
    (builtHeader (C := Toy.collaborators true) RoundTripExamples.message Examples.store)
    "Message-Id" = "<id1@protonmail.internalid>".
Proof.
  destruct (GetHeader_Message_Id (C := Toy.collaborators true)
              RoundTripExamples.message Examples.store) as (_ & _ & Hid & _).
  split_and!; [reflexivity|reflexivity|discriminate|].
  apply Hid; [reflexivity|reflexivity|discriminate].
Defined.

(** ** Fields and maps [GetHeader] leaves alone *)

(** X2: every entry of the header map stored under a key that is none of
    the thirteen field names [GetHeader] writes is the same in the built
    header as in the header the Message came with. *)
Theorem GetHeader_keeps_other_fields `{C : Collaborators}
    (msg : Message) (σ : heap) (i : string) :
  i ∉ headerFieldNames →
  builtHeader msg σ !! i = deref σ (Header msg) !! i.
Proof. intros Hi. rewrite builtHeader_fields. by apply headerFields_lookup. Qed.

Lemma GetHeader_keeps_other_fields_witness :
  ("X-Custom" ∉ headerFieldNames) ∧
  builtHeader (C := Toy.collaborators true)
    (Examples.message "a" "" 5 (Some 1%positive)) Examples.store !! "X-Custom"
  = Some ["v"].
Proof.
  assert ("X-Custom" ∉ headerFieldNames) as Hout.
  { unfold headerFieldNames. rewrite !not_elem_of_cons. split_and!; try discriminate.
    apply not_elem_of_nil. }
  split; [exact Hout|].
  rewrite (GetHeader_keeps_other_fields (C := Toy.collaborators true) _ _ _ Hout).
  reflexivity.
Defined.

(** X3: [GetHeader] sets X-Pm-External-Id to [<ExternalID>] and
    X-Pm-ConversationID-Id to the ConversationID when they are not empty;
    an empty ExternalID, ConversationID or ID leaves its field as it was,
    and References stays as it was when both ID and ConversationID are
    empty. *)
Theorem GetHeader_identifier_fields `{C : Collaborators} (msg : Message) (σ : heap) :
  let old := deref σ (Header msg) in
  let new := builtHeader msg σ in
  (ExternalID msg ≠ "" →
   MIMEHeader_values new "X-Pm-External-Id" = Some ["<" +:+ ExternalID msg +:+ ">"]) ∧
  (ExternalID msg = "" →
   MIMEHeader_values new "X-Pm-External-Id" = MIMEHeader_values old "X-Pm-External-Id") ∧
  (ConversationID msg ≠ "" →
   MIMEHeader_values new "X-Pm-ConversationID-Id" = Some [ConversationID msg]) ∧
  (ConversationID msg = "" →
   MIMEHeader_values new "X-Pm-ConversationID-Id"
   = MIMEHeader_values old "X-Pm-ConversationID-Id") ∧
  (ID msg = "" →
   MIMEHeader_values new "X-Pm-Internal-Id" = MIMEHeader_values old "X-Pm-Internal-Id") ∧
  (ID msg = "" → ConversationID msg = "" →
   MIMEHeader_values new "References" = MIMEHeader_values old "References").
Proof.
  intros old new. unfold new. rewrite builtHeader_fields. fold old. unfold headerFields.
  split_and!.
  - intros Hext%eqb_empty_false.
    rewrite fieldsConversationID_frame, fieldsInternalID_frame by key_ne.
    unfold fieldsExternalID. rewrite Hext. cbn [negb].
    rewrite values_cond_set_ne by key_ne. apply values_Set_eq.
  - intros Hext.
    rewrite fieldsConversationID_frame, fieldsInternalID_frame by key_ne.
    unfold fieldsExternalID. rewrite Hext. cbn.
    by rewrite fieldsDate_frame, fieldsEnvelope_frame by key_ne.
  - intros Hconv%eqb_empty_false. unfold fieldsConversationID. rewrite Hconv. cbn [negb].
    rewrite values_cond_set_ne by key_ne. apply values_Set_eq.
  - intros Hconv. unfold fieldsConversationID at 1. rewrite Hconv. cbn.
    by rewrite fieldsInternalID_frame, fieldsExternalID_frame, fieldsDate_frame,
      fieldsEnvelope_frame by key_ne.
  - intros Hid. rewrite fieldsConversationID_frame by key_ne.
    unfold fieldsInternalID. rewrite Hid. cbn.
    by rewrite fieldsExternalID_frame, fieldsDate_frame, fieldsEnvelope_frame by key_ne.
  - intros Hid Hconv. unfold fieldsConversationID, fieldsInternalID.
    rewrite Hid, Hconv. cbn.
    by rewrite fieldsExternalID_frame, fieldsDate_frame, fieldsEnvelope_frame by key_ne.
Qed.

Lemma GetHeader_identifier_fields_witness :
  ExternalID (mkMessage "" "ext" "conv" "" None None None None None "" 0 None) ≠ "" ∧
  MIMEHeader_values
    (builtHeader (C := Toy.collaborators true)
       (mkMessage "" "ext" "conv" "" None None None None None "" 0 None) Examples.store)
    "X-Pm-External-Id" = Some ["<ext>"] ∧
  MIMEHeader_values
    (builtHeader (C := Toy.collaborators true)
       (mkMessage "" "ext" "conv" "" None None None None None "" 0 None) Examples.store)
    "X-Pm-ConversationID-Id" = Some ["conv"].
Proof.
  destruct (GetHeader_identifier_fields (C := Toy.collaborators true)
              (mkMessage "" "ext" "conv" "" None None None None None "" 0 None)
              Examples.store) as (Hext & _ & Hconv & _).
  split_and!; [discriminate|apply Hext; discriminate|apply Hconv; discriminate].
Defined.

(** X4: with [Time <= 0] (an unset timestamp) [GetHeader] leaves both
    X-Pm-Date and Date as they were. *)
Theorem GetHeader_unset_Time `{C : Collaborators} (msg : Message) (σ : heap) :
  Time msg ≤ 0 →
  MIMEHeader_values (builtHeader msg σ) "X-Pm-Date"
  = MIMEHeader_values (deref σ (Header msg)) "X-Pm-Date" ∧
  MIMEHeader_values (builtHeader msg σ) "Date"
  = MIMEHeader_values (deref σ (Header msg)) "Date".
Proof.
  intros Ht. rewrite builtHeader_fields, !headerFields_date by key_ne.
  unfold fieldsDate. destruct (Z.ltb_spec 0 (Time msg)); [lia|].
  by rewrite !fieldsEnvelope_frame by key_ne.
Qed.

Lemma GetHeader_unset_Time_witness :
  Time (Examples.message "a" "Hi" 0 (Some 1%positive)) ≤ 0 ∧
  MIMEHeader_values
    (builtHeader (C := Toy.collaborators true)
       (Examples.message "a" "Hi" 0 (Some 1%positive)) Examples.store) "X-Pm-Date"
  = None ∧
  MIMEHeader_values
    (builtHeader (C := Toy.collaborators true)
       (Examples.message "a" "Hi" 0 (Some 1%positive)) Examples.store) "Date"
  = Some ["ttt"].
Proof.
  destruct (GetHeader_unset_Time (C := Toy.collaborators true)
              (Examples.message "a" "Hi" 0 (Some 1%positive)) Examples.store)
    as [Hx Hd]; [reflexivity|].
  split_and!; [reflexivity|by rewrite Hx|by rewrite Hd].
Defined.

(** X5: [GetHeader] changes no map of the store other than the one the
    Message holds; without one, the map it returns is new, and with one it
    returns that map. *)
Theorem GetHeader_store_frame `{C : Collaborators} (msg : Message) (σ : heap) :
  (∀ l, l ∈ dom σ → Header msg ≠ Some l → (GetHeader msg σ).2 !! l = σ !! l) ∧
  (Header msg = None → (GetHeader msg σ).1 ∉ dom σ) ∧
  (∀ l, Header msg = Some l → (GetHeader msg σ).1 = l).
Proof.
  rewrite GetHeader_run. cbn [fst snd]. unfold target.
  pose proof (is_fresh (dom σ)) as Hfresh. split_and!.
  - intros l Hl Hne. destruct (Header msg) as [l'|].
    + rewrite !lookup_insert_ne; [done| |]; congruence.
    + rewrite !lookup_insert_ne; [done| |]; congruence.
  - by intros ->.
  - by intros l ->.
Qed.

Lemma GetHeader_store_frame_witness :
  2%positive ∈ dom Examples.store ∧
  Header (Examples.message "a" "Hi" 0 (Some 1%positive)) ≠ Some 2%positive ∧
  (GetHeader (C := Toy.collaborators true)
     (Examples.message "a" "Hi" 0 (Some 1%positive)) Examples.store).2 !! 2%positive
  = Examples.store !! 2%positive.
Proof.
  destruct (GetHeader_store_frame (C := Toy.collaborators true)
              (Examples.message "a" "Hi" 0 (Some 1%positive)) Examples.store)
    as (Hframe & _ & _).
  assert (2%positive ∈ dom Examples.store) as Hin.
  { apply elem_of_dom. by eexists. }
  split_and!; [exact Hin|discriminate|apply Hframe; [exact Hin|discriminate]].
Defined.

(** ** Running [GetHeader] again *)

Section RerunFacts.
Context `{C : Collaborators}.
Implicit Types (m : MIMEHeader) (i k : string) (msg : Message) (σ : heap).

Lemma headerFields_External_Id msg m :
  ExternalID msg ≠ "" →
  MIMEHeader_values (headerFields msg m) "X-Pm-External-Id"
  = Some ["<" +:+ ExternalID msg +:+ ">"].
Proof.
  intros Hext%eqb_empty_false. unfold headerFields.
  rewrite fieldsConversationID_frame, fieldsInternalID_frame by key_ne.
  unfold fieldsExternalID. rewrite Hext. cbn [negb].
  rewrite values_cond_set_ne by key_ne. apply values_Set_eq.
Qed.

Lemma headerFields_Conversation_Id msg m :
  ConversationID msg ≠ "" →
  MIMEHeader_values (headerFields msg m) "X-Pm-ConversationID-Id" = Some [ConversationID msg].
Proof.
  intros Hconv%eqb_empty_false. unfold headerFields, fieldsConversationID.
  rewrite Hconv. cbn [negb]. rewrite values_cond_set_ne by key_ne. apply values_Set_eq.
Qed.

Lemma headerFields_Internal_Id msg m :
  ID msg ≠ "" →
  MIMEHeader_values (headerFields msg m) "X-Pm-Internal-Id" = Some [ID msg].
Proof.
  intros Hid%eqb_empty_false. unfold headerFields.
  rewrite fieldsConversationID_frame by key_ne.
  unfold fieldsInternalID. rewrite Hid. cbn [negb].
  rewrite values_cond_set_ne by key_ne. apply values_Set_eq.
Qed.

Lemma headerFields_Message_Id_set msg m :
  ExternalID msg ≠ "" ∨ ID msg ≠ "" →
  String.eqb (MIMEHeader_Get (headerFields msg m) "Message-Id") "" = false.
Proof.
  intros Hids.
  rewrite (Get_values (headerFields msg m)), headerFields_Message_Id, internal_Message_Id.
  rewrite (Get_values (fieldsExternalID msg m)), external_Message_Id.
  assert (match MIMEHeader_values m "Message-Id" with
          | Some (v :: _) => v
          | _ => ""
          end = MIMEHeader_Get m "Message-Id") as Hget by done.
  destruct (String.eqb (MIMEHeader_Get m "Message-Id") "") eqn:Hold,
    (String.eqb (ExternalID msg) "") eqn:Hext, (String.eqb (ID msg) "") eqn:Hid;
    cbn [negb andb]; rewrite ?Hget, ?Hold; cbn [negb andb]; rewrite ?Hget, ?Hold; try done.
  apply String.eqb_eq in Hext, Hid. by destruct Hids.
Qed.

Lemma headerFields_X_Pm_Date msg m :
  0 < Time msg →
  MIMEHeader_values (headerFields msg m) "X-Pm-Date" = Some [FormatRFC1123Z (Time msg)].
Proof.
  intros Ht%Z.ltb_lt. rewrite headerFields_date by key_ne. unfold fieldsDate. rewrite Ht.
  destruct (Header_Date _) as [t [e|]];
    rewrite ?values_cond_set_ne, ?values_Set_ne by key_ne; apply values_Set_eq.
Qed.

Lemma headerFields_Date msg m :
  0 < Time msg →
  MIMEHeader_values (headerFields msg m) "Date"
  = match Header_Date (dateView msg m) with
    | (_, Some _) => Some [FormatRFC1123Z (Time msg)]
    | (t, None) =>
        if IsZero t then Some [FormatRFC1123Z (Time msg)]
        else MIMEHeader_values (dateView msg m) "Date"
    end.
Proof.
  intros Ht%Z.ltb_lt. rewrite headerFields_date by key_ne. unfold fieldsDate. rewrite Ht.
  fold (dateView msg m).
  destruct (Header_Date (dateView msg m)) as [t [e|]] eqn:Hview; [apply values_Set_eq|].
  rewrite values_cond_set_eq. destruct (IsZero t); [done|].
  unfold dateView in *. destruct (Header msg); [done|].
  unfold Header_Date in Hview. rewrite Get_empty in Hview. cbn in Hview. congruence.
Qed.

Lemma rerun_envelope msg v m :
  fieldsEnvelope (with_Header v msg) (headerFields msg m) = headerFields msg m.
Proof.
  unfold fieldsEnvelope. cbn [Subject Sender ReplyTos ToList CCList BCCList with_Header].
  pose proof (headerFields_envelope msg m) as Henv.
  rewrite (Set_present (headerFields msg m) "Subject")
    by (rewrite Henv by key_ne; apply envelope_Subject).
  assert (match Sender msg with
          | Some a => MIMEHeader_Set (headerFields msg m) "From" (EncodeHeader (AddressString a))
          | None => headerFields msg m
          end = headerFields msg m) as ->.
  { destruct (Sender msg) as [a|] eqn:Ha; [|done]. apply Set_present.
    rewrite Henv by key_ne. by rewrite envelope_From, Ha. }
  rewrite (cond_set_present _ _ "Reply-To")
    by (intros Hb; rewrite Henv by key_ne; by rewrite envelope_ReplyTo, Hb).
  rewrite (cond_set_present _ _ "To")
    by (intros Hb; rewrite Henv by key_ne; by rewrite envelope_To, Hb).
  rewrite (cond_set_present _ _ "Cc")
    by (intros Hb; rewrite Henv by key_ne; by rewrite envelope_Cc, Hb).
  apply cond_set_present. intros Hb. rewrite Henv by key_ne. by rewrite envelope_Bcc, Hb.
Qed.

Lemma rerun_date msg l m :
  fieldsDate (with_Header (Some l) msg) (headerFields msg m) = headerFields msg m.
Proof.
  unfold fieldsDate. cbn [Time Header with_Header].
  destruct (Z.ltb_spec 0 (Time msg)) as [Ht|_]; [|done].
  rewrite (Set_present (headerFields msg m) "X-Pm-Date") by by apply headerFields_X_Pm_Date.
  pose proof (headerFields_Date msg m Ht) as Hdate.
  destruct (Header_Date (dateView msg m)) as [t [e|]] eqn:Hview.
  - destruct (Header_Date (headerFields msg m)) as [t' [e'|]];
      [by apply Set_present|by apply cond_set_present].
  - destruct (IsZero t) eqn:Hzero.
    + destruct (Header_Date (headerFields msg m)) as [t' [e'|]];
        [by apply Set_present|by apply cond_set_present].
    + rewrite (Header_Date_ext (headerFields msg m) (dateView msg m))
        by by apply Get_of_values.
      rewrite Hview. apply cond_set_present. congruence.
Qed.

Lemma rerun_external msg v m :
  fieldsExternalID (with_Header v msg) (headerFields msg m) = headerFields msg m.
Proof.
  unfold fieldsExternalID. cbn [ExternalID with_Header].
  destruct (String.eqb (ExternalID msg) "") eqn:Hext; [done|]. cbn [negb].
  apply String.eqb_neq in Hext.
  rewrite (Set_present (headerFields msg m) "X-Pm-External-Id")
    by by apply headerFields_External_Id.
  apply cond_set_present. rewrite headerFields_Message_Id_set by auto. done.
Qed.

Lemma rerun_internal msg v m :
  fieldsInternalID (with_Header v msg) (headerFields msg m) = headerFields msg m.
Proof.
  unfold fieldsInternalID. cbn [ID with_Header].
  destruct (String.eqb (ID msg) "") eqn:Hid; [done|]. cbn [negb].
  apply String.eqb_neq in Hid.
  rewrite (cond_set_present _ (headerFields msg m) "Message-Id")
    by (rewrite headerFields_Message_Id_set by auto; done).
  rewrite (Set_present (headerFields msg m) "X-Pm-Internal-Id")
    by by apply headerFields_Internal_Id.
  apply cond_set_present. rewrite references_headerFields.
  rewrite addReference_mono; [done|]. by apply addReference_contains.
Qed.

Lemma rerun_conversation msg v m :
  fieldsConversationID (with_Header v msg) (headerFields msg m) = headerFields msg m.
Proof.
  unfold fieldsConversationID. cbn [ConversationID with_Header].
  destruct (String.eqb (ConversationID msg) "") eqn:Hconv; [done|]. cbn [negb].
  apply String.eqb_neq in Hconv.
  rewrite (Set_present (headerFields msg m) "X-Pm-ConversationID-Id")
    by by apply headerFields_Conversation_Id.
  apply cond_set_present. rewrite references_headerFields.
  by rewrite addReference_contains.
Qed.

Lemma headerFields_rerun msg l m :
  headerFields (with_Header (Some l) msg) (headerFields msg m) = headerFields msg m.
Proof.
  unfold headerFields at 1.
  by rewrite rerun_envelope, rerun_date, rerun_external, rerun_internal, rerun_conversation.
Qed.

End RerunFacts.

(** X6: [GetHeader] is idempotent on its result: run again on the Message
    with the header it has just built, it builds the same header, entry for
    entry. *)
Theorem GetHeader_idempotent `{C : Collaborators} (msg : Message) (σ : heap) :
  builtHeader (with_Header (Some (GetHeader msg σ).1) msg) (GetHeader msg σ).2
  = builtHeader msg σ.
Proof.
  rewrite (builtHeader_fields (with_Header _ msg)). cbn [Header with_Header].
  rewrite GetHeader_run. cbn [fst snd]. rewrite deref_insert.
  rewrite <- (builtHeader_fields msg σ), builtHeader_fields.
  apply headerFields_rerun.
Qed.

(** ** The attachment header *)

Section SubBuilderFacts.
Context `{C : Collaborators}.
Implicit Types (m : MIMEHeader) (i k : string) (σ : heap) (h : loc).

Lemma deref_insert_ne σ h m (r : href) :
  r ≠ Some h → deref (<[h := m]> σ) r = deref σ r.
Proof.
  intros Hr. destruct r as [l|]; [|done]. unfold deref.
  rewrite lookup_insert_ne; [done|congruence].
Qed.

Lemma deref_fresh σ : deref σ (Some (fresh (dom σ))) = ∅.
Proof.
  unfold deref. by rewrite (not_elem_of_dom_1 σ _ (is_fresh (dom σ))).
Qed.

Lemma forwardField_empty k m : forwardField ∅ k m = m.
Proof. unfold forwardField. by rewrite Get_empty. Qed.

Lemma run_forward {B : Type} att h k m σ (rest : St B) :
  AttHeader att ≠ Some h →
  (v ← Get (AttHeader att) k; when (negb (String.eqb v "")) (SetField h k v);; rest)
    (<[h := m]> σ)
  = rest (<[h := forwardField (deref σ (AttHeader att)) k m]> σ).
Proof.
  intros Hne. rewrite run_bind. unfold Get at 1. cbv beta iota.
  rewrite deref_insert_ne by done.
  erewrite run_seq; [done|]. apply run_when_SetField.
Qed.

Lemma run_forward_absent {B : Type} h k m σ (rest : St B) :
  MIMEHeader_Get m k = "" →
  (v ← Get (Some h) k; when (negb (String.eqb v "")) (SetField h k v);; rest)
    (<[h := m]> σ)
  = rest (<[h := m]> σ).
Proof.
  intros Hk. rewrite run_bind, run_Get, Hk. by erewrite run_seq.
Qed.

Lemma GetAttachmentHeader_run att σ :
  GetAttachmentHeader att σ
  = (fresh (dom σ),
     <[fresh (dom σ) := attachmentFields att (deref σ (AttHeader att))]> σ).
Proof.
  unfold GetAttachmentHeader, attachmentFields.
  rewrite run_bind. unfold Get at 1.
  rewrite run_bind. unfold make at 1.
  set (h := fresh (dom σ)).
  do 3 (erewrite run_seq by apply run_SetField).
  cbn [foldr]. rewrite run_bind.
  destruct (decide (AttHeader att = Some h)) as [Halias|Hne].
  - rewrite Halias. unfold h at 2 3 4. rewrite deref_fresh, !forwardField_empty. fold h.
    rewrite Get_empty.
    do 3 (rewrite run_forward_absent
            by (rewrite !Get_Set_ne by key_ne; apply Get_empty)).
    done.
  - by rewrite !run_forward by done.
Qed.

Lemma builtAttachment_fields att σ :
  builtAttachment att σ = attachmentFields att (deref σ (AttHeader att)).
Proof. unfold builtAttachment. rewrite GetAttachmentHeader_run. apply deref_insert. Qed.

Lemma forwardField_values_ne original k m k' :
  CanonicalMIMEHeaderKey k ≠ CanonicalMIMEHeaderKey k' →
  MIMEHeader_values (forwardField original k m) k' = MIMEHeader_values m k'.
Proof. apply values_cond_set_ne. Qed.

Lemma forwardField_values original k m :
  MIMEHeader_values m k = None →
  MIMEHeader_values (forwardField original k m) k
  = if String.eqb (MIMEHeader_Get original k) "" then None
    else Some [MIMEHeader_Get original k].
Proof.
  intros Hm. unfold forwardField. rewrite values_cond_set_eq, Hm.
  by destruct (String.eqb (MIMEHeader_Get original k) "").
Qed.

Lemma forwardField_lookup_ne original k m i :
  CanonicalMIMEHeaderKey k ≠ i → forwardField original k m !! i = m !! i.
Proof. apply lookup_cond_set_ne. Qed.

End SubBuilderFacts.

(** X7: the Content-Type of an attachment header is the media-type
    formatting of the attachment's MIME type with the encoded name as the
    [name] parameter, where [application/pgp-encrypted] is replaced by
    [application/octet-stream]; Content-Transfer-Encoding is always
    [base64]. *)
Theorem GetAttachmentHeader_content_type `{C : Collaborators} (att : Attachment) (σ : heap) :
  MIMEHeader_Get (builtAttachment att σ) "Content-Type"
  = FormatMediaType
      (if String.eqb (AttMIMEType att) "application/pgp-encrypted"
       then "application/octet-stream" else AttMIMEType att)
      [("name", EncodeHeader (AttName att))] ∧
  (AttMIMEType att = "application/pgp-encrypted" →
   MIMEHeader_Get (builtAttachment att σ) "Content-Type"
   = FormatMediaType "application/octet-stream" [("name", EncodeHeader (AttName att))]) ∧
  MIMEHeader_Get (builtAttachment att σ) "Content-Transfer-Encoding" = "base64".
Proof.
  rewrite builtAttachment_fields. unfold attachmentFields.
  assert (∀ k v m original,
            CanonicalMIMEHeaderKey "Content-Id" ≠ CanonicalMIMEHeaderKey k →
            CanonicalMIMEHeaderKey "Content-Description" ≠ CanonicalMIMEHeaderKey k →
            CanonicalMIMEHeaderKey "Content-Location" ≠ CanonicalMIMEHeaderKey k →
            MIMEHeader_values m k = Some [v] →
            MIMEHeader_Get
              (forwardField original "Content-Location"
                 (forwardField original "Content-Description"
                    (forwardField original "Content-Id" m))) k = v) as Hfwd.
  { intros k v m original H1 H2 H3 Hm.
    by rewrite Get_values, !forwardField_values_ne, Hm by done. }
  split_and!.
  - apply Hfwd; try key_ne. rewrite !values_Set_ne by key_ne. apply values_Set_eq.
  - intros ->. apply Hfwd; try key_ne. rewrite !values_Set_ne by key_ne. apply values_Set_eq.
  - apply Hfwd; try key_ne. rewrite !values_Set_ne by key_ne. apply values_Set_eq.
Qed.

Lemma GetAttachmentHeader_content_type_witness :
  AttMIMEType (mkAttachment "application/pgp-encrypted" "a.gpg" None)
  = "application/pgp-encrypted" ∧
  MIMEHeader_Get
    (builtAttachment (C := Toy.collaborators true)
       (mkAttachment "application/pgp-encrypted" "a.gpg" None) Examples.store)
    "Content-Type" = "application/octet-stream; name=a.gpg".
Proof.
  destruct (GetAttachmentHeader_content_type (C := Toy.collaborators true)
              (mkAttachment "application/pgp-encrypted" "a.gpg" None) Examples.store)
    as (_ & Hpgp & _).
  split; [reflexivity|]. rewrite Hpgp by reflexivity. reflexivity.
Defined.

(** X8: for each of Content-Id, Content-Description and Content-Location,
    with [v] the value [Get] reads in the attachment's original header: when
    [v] is not empty the built attachment header holds the field with the
    single value [v], and when [v] is empty (or the field is missing) the
    built header has no entry for the field at all.  In both cases [Get]
    reads [v] in the built header. *)
Theorem GetAttachmentHeader_forwards `{C : Collaborators}
    (att : Attachment) (σ : heap) (k : string) :
  k ∈ ["Content-Id"; "Content-Description"; "Content-Location"] →
  let v := MIMEHeader_Get (deref σ (AttHeader att)) k in
  (v ≠ "" → MIMEHeader_values (builtAttachment att σ) k = Some [v]) ∧
  (v = "" → MIMEHeader_values (builtAttachment att σ) k = None) ∧
  MIMEHeader_Get (builtAttachment att σ) k = v.
Proof.
  intros Hk v.
  assert (MIMEHeader_values (builtAttachment att σ) k
          = if String.eqb v "" then None else Some [v]) as Hvalues.
  { unfold v. rewrite builtAttachment_fields. unfold attachmentFields.
    set (original := deref σ (AttHeader att)).
    match goal with
    | |- context [forwardField original "Content-Id" ?m0] => set (m3 := m0)
    end.
    assert (∀ k', CanonicalMIMEHeaderKey "Content-Type" ≠ CanonicalMIMEHeaderKey k' →
                  CanonicalMIMEHeaderKey "Content-Transfer-Encoding" ≠ CanonicalMIMEHeaderKey k' →
                  CanonicalMIMEHeaderKey "Content-Disposition" ≠ CanonicalMIMEHeaderKey k' →
                  MIMEHeader_values m3 k' = None) as Hm3.
    { intros k' H1 H2 H3. unfold m3. rewrite !values_Set_ne by done. apply lookup_empty. }
    clearbody m3.
    rewrite !elem_of_cons, elem_of_nil in Hk. destruct Hk as [->|[->|[->|[]]]].
    - rewrite !forwardField_values_ne by key_ne.
      apply forwardField_values, Hm3; key_ne.
    - rewrite !forwardField_values_ne by key_ne.
      apply forwardField_values.
      rewrite !forwardField_values_ne by key_ne. apply Hm3; key_ne.
    - apply forwardField_values.
      rewrite !forwardField_values_ne by key_ne. apply Hm3; key_ne. }
  split_and!.
  - intros Hv%String.eqb_neq. by rewrite Hvalues, Hv.
  - intros Hv. by rewrite Hvalues, Hv.
  - rewrite Get_values, Hvalues. by destruct (String.eqb_spec v "").
Qed.

(** X9: the built attachment header holds no entry under any key other
    than the six field names [GetAttachmentHeader] writes: every other
    field of the original header is dropped. *)
Theorem GetAttachmentHeader_drops_other_fields `{C : Collaborators}
    (att : Attachment) (σ : heap) (i : string) :
  i ∉ attachmentFieldNames → builtAttachment att σ !! i = None.
Proof.
  intros Hi. rewrite builtAttachment_fields. unfold attachmentFields, attachmentFieldNames in *.
  rewrite !forwardField_lookup_ne by key_out Hi.
  rewrite !lookup_Set_ne by key_out Hi. apply lookup_empty.
Qed.

(** ** The body and related headers *)

Lemma GetAttachmentHeader_forwards_witness :
  "Content-Id" ∈ ["Content-Id"; "Content-Description"; "Content-Location"] ∧
  MIMEHeader_Get (deref MoreExamples.store (AttHeader MoreExamples.attachment)) "Content-Id"
  ≠ "" ∧
  MIMEHeader_values
    (builtAttachment (C := Toy.collaborators true)
       MoreExamples.attachment MoreExamples.store) "Content-Id" = Some ["<cid1>"].
Proof.
  assert ("Content-Id" ∈ ["Content-Id"; "Content-Description"; "Content-Location"])
    as Hin by (apply elem_of_cons; by left).
  assert (MIMEHeader_Get (deref MoreExamples.store (AttHeader MoreExamples.attachment))
            "Content-Id" ≠ "") as Hne by (vm_compute; discriminate).
  split; [exact Hin|]. split; [exact Hne|].
  destruct (GetAttachmentHeader_forwards (C := Toy.collaborators true)
              MoreExamples.attachment MoreExamples.store "Content-Id" Hin) as (Hset & _ & _).
  exact (Hset Hne).
Defined.

Lemma GetAttachmentHeader_drops_other_fields_witness :
  ("X-Attachment-Id" ∉ attachmentFieldNames) ∧
  deref MoreExamples.store (AttHeader MoreExamples.attachment) !! "X-Attachment-Id"
  = Some ["z"] ∧
  builtAttachment (C := Toy.collaborators true)
    MoreExamples.attachment MoreExamples.store !! "X-Attachment-Id" = None.
Proof.
  assert ("X-Attachment-Id" ∉ attachmentFieldNames) as Hout.
  { unfold attachmentFieldNames. rewrite !not_elem_of_cons. split_and!; try discriminate.
    apply not_elem_of_nil. }
  split_and!; [exact Hout|reflexivity|].
  apply (GetAttachmentHeader_drops_other_fields (C := Toy.collaborators true)). exact Hout.
Defined.

Section BodyFacts.
Implicit Types (m : MIMEHeader) (i k : string) (σ : heap) (h : loc) (msg : Message).

Lemma SetBodyContentFields_run msg h σ :
  SetBodyContentFields (Some h) msg σ
  = (Ret tt, <[h := bodyFields msg (deref σ (Some h))]> σ).
Proof.
  unfold SetBodyContentFields, bodyFields.
  erewrite run_seq; [|reflexivity].
  do 2 (erewrite run_seq by apply run_SetField). done.
Qed.

Lemma GetBodyHeader_run msg σ :
  GetBodyHeader msg σ = (fresh (dom σ), <[fresh (dom σ) := bodyFields msg ∅]> σ).
Proof.
  unfold GetBodyHeader. rewrite run_bind. unfold make at 1. cbv beta iota.
  rewrite run_bind, SetBodyContentFields_run, deref_insert, insert_insert_eq. done.
Qed.

Lemma GetRelatedHeader_run boundary msg σ :
  GetRelatedHeader boundary msg σ
  = (fresh (dom σ),
     <[fresh (dom σ) := MIMEHeader_Set ∅ "Content-Type"
                          ("multipart/related; boundary=" +:+ boundary msg)]> σ).
Proof.
  unfold GetRelatedHeader. rewrite run_bind. unfold make at 1. cbv beta iota.
  by erewrite run_seq by apply run_SetField.
Qed.

Lemma fresh_frame σ m l :
  l ∈ dom σ → (<[fresh (dom σ) := m]> σ : heap) !! l = σ !! l.
Proof.
  intros Hl. apply lookup_insert_ne. intros Heq. rewrite <- Heq in Hl.
  by apply (is_fresh (dom σ)).
Qed.

End BodyFacts.

(** X10: [GetBodyHeader], [GetRelatedHeader] and [GetAttachmentHeader]
    return a map that is new and change no map of the store, the
    attachment's original header included. *)
Theorem sub_builders_allocate `{C : Collaborators}
    (boundary : Message → string) (msg : Message) (att : Attachment) (σ : heap) :
  ((GetBodyHeader msg σ).1 ∉ dom σ) ∧
  ((GetRelatedHeader boundary msg σ).1 ∉ dom σ) ∧
  ((GetAttachmentHeader att σ).1 ∉ dom σ) ∧
  ∀ l, l ∈ dom σ →
       (GetBodyHeader msg σ).2 !! l = σ !! l ∧
       (GetRelatedHeader boundary msg σ).2 !! l = σ !! l ∧
       (GetAttachmentHeader att σ).2 !! l = σ !! l.
Proof.
  rewrite GetBodyHeader_run, GetRelatedHeader_run, GetAttachmentHeader_run. cbn [fst snd].
  split_and!; try apply is_fresh.
  intros l Hl. by rewrite !fresh_frame.
Qed.

Lemma sub_builders_allocate_witness :
  1%positive ∈ dom MoreExamples.store ∧
  (GetAttachmentHeader (C := Toy.collaborators true)
     MoreExamples.attachment MoreExamples.store).2 !! 1%positive
  = Some MoreExamples.original_header.
Proof.
  assert (1%positive ∈ dom MoreExamples.store) as Hin.
  { apply elem_of_dom. by eexists. }
  destruct (sub_builders_allocate (C := Toy.collaborators true) (λ _, "b")
              (Examples.message "a" "" 0 None) MoreExamples.attachment MoreExamples.store)
    as (_ & _ & _ & Hframe).
  split; [exact Hin|].
  destruct (Hframe 1%positive Hin) as (_ & _ & ->). reflexivity.
Defined.

(** X11: [SetBodyContentFields] panics on the nil map and leaves the store
    alone.  On a map it returns normally, sets Content-Type to
    [MIMEType; charset=utf-8], Content-Disposition to [inline] and
    Content-Transfer-Encoding to [quoted-printable], keeps every other
    entry of the map and every other map, and a second call changes
    nothing. *)
Theorem SetBodyContentFields_fields (msg : Message) (h : href) (σ : heap) :
  (h = None → SetBodyContentFields h msg σ = (Panic, σ)) ∧
  (∀ l, h = Some l →
     let σ' := (SetBodyContentFields h msg σ).2 in
     (SetBodyContentFields h msg σ).1 = Ret tt ∧
     MIMEHeader_values (deref σ' h) "Content-Type"
     = Some [MIMEType msg +:+ "; charset=utf-8"] ∧
     MIMEHeader_values (deref σ' h) "Content-Disposition" = Some ["inline"] ∧
     MIMEHeader_values (deref σ' h) "Content-Transfer-Encoding" = Some ["quoted-printable"] ∧
     (∀ i, i ∉ ["Content-Type"; "Content-Disposition"; "Content-Transfer-Encoding"] →
           deref σ' h !! i = deref σ h !! i) ∧
     (∀ l', l' ≠ l → σ' !! l' = σ !! l') ∧
     (SetBodyContentFields h msg σ').2 = σ').
Proof.
  split; [by intros ->|]. intros l -> σ'. unfold σ'.
  rewrite !SetBodyContentFields_run. cbn [fst snd]. rewrite !deref_insert.
  unfold bodyFields. split_and!.
  - done.
  - rewrite !values_Set_ne by key_ne. apply values_Set_eq.
  - rewrite !values_Set_ne by key_ne. apply values_Set_eq.
  - apply values_Set_eq.
  - intros i Hi. by rewrite !lookup_Set_ne by key_out Hi.
  - intros l' Hl'. by rewrite lookup_insert_ne.
  - rewrite insert_insert_eq. f_equal.
    set (m0 := deref σ (Some l)).
    rewrite (Set_present _ "Content-Type")
      by (rewrite !values_Set_ne by key_ne; apply values_Set_eq).
    rewrite (Set_present _ "Content-Disposition")
      by (rewrite !values_Set_ne by key_ne; apply values_Set_eq).
    apply Set_present, values_Set_eq.
Qed.

Lemma SetBodyContentFields_fields_witness :
  (None : href) = None ∧
  SetBodyContentFields None (Examples.message "a" "" 0 None) MoreExamples.store
  = (Panic, MoreExamples.store) ∧
  MIMEHeader_values
    (deref (SetBodyContentFields (Some 1%positive)
              (mkMessage "" "" "" "" None None None None None "text/html" 0 None)
              MoreExamples.store).2 (Some 1%positive)) "Content-Type"
  = Some ["text/html; charset=utf-8"].
Proof.
  destruct (SetBodyContentFields_fields
              (Examples.message "a" "" 0 None) None MoreExamples.store) as [Hnil _].
  destruct (SetBodyContentFields_fields
              (mkMessage "" "" "" "" None None None None None "text/html" 0 None)
              (Some 1%positive) MoreExamples.store) as [_ Hset].
  split_and!; [reflexivity|by apply Hnil|].
  destruct (Hset 1%positive eq_refl) as (_ & Hct & _). exact Hct.
Defined.

(** X12: the map [GetBodyHeader] returns holds exactly the three body
    fields, and the map [GetRelatedHeader] returns holds exactly
    Content-Type, [multipart/related] with the boundary of the message. *)
Theorem body_and_related_headers (boundary : Message → string) (msg : Message) (σ : heap) :
  deref (GetBodyHeader msg σ).2 (Some (GetBodyHeader msg σ).1)
  = {[ "Content-Type" := [MIMEType msg +:+ "; charset=utf-8"];
       "Content-Disposition" := ["inline"];
       "Content-Transfer-Encoding" := ["quoted-printable"] ]} ∧
  deref (GetRelatedHeader boundary msg σ).2 (Some (GetRelatedHeader boundary msg σ).1)
  = {[ "Content-Type" := ["multipart/related; boundary=" +:+ boundary msg] ]}.
Proof.
  rewrite GetBodyHeader_run, GetRelatedHeader_run. cbn [fst snd]. rewrite !deref_insert.
  split.
  - apply map_eq. intros i. unfold bodyFields.
    destruct (decide (i = "Content-Type")) as [->|H1]; [done|].
    destruct (decide (i = "Content-Disposition")) as [->|H2]; [done|].
    destruct (decide (i = "Content-Transfer-Encoding")) as [->|H3]; [done|].
    rewrite !lookup_Set_ne, lookup_empty by (vm_compute; congruence).
    symmetry. by rewrite !lookup_insert_ne, lookup_singleton_ne.
  - apply map_eq. intros i.
    destruct (decide (i = "Content-Type")) as [->|H1]; [done|].
    rewrite lookup_Set_ne, lookup_empty by (vm_compute; congruence).
    symmetry. by rewrite lookup_singleton_ne.
Qed.

(** ** The spans of the bracket scan *)

Section SpanFacts.
Implicit Types (s sub p raw : string) (n k c : nat) (st : scan).

Lemma take_cons n a s : take (S n) (String a s) = String a (take n s).
Proof. done. Qed.

Lemma HasPrefix_take s sub n :
  (String.length sub ≤ n)%nat → HasPrefix (take n s) sub = HasPrefix s sub.
Proof.
  revert s n; induction sub as [|a sub IH]; intros s n Hn; [done|].
  destruct n as [|n]; [simpl in Hn; lia|].
  destruct s as [|b s]; [done|]. rewrite take_cons. cbn [HasPrefix].
  rewrite IH; [done|simpl in Hn; lia].
Qed.

Lemma HasPrefix_take_self s n : HasPrefix s (take n s) = true.
Proof.
  revert s; induction n as [|n IH]; intros [|a s]; try done.
  rewrite take_cons. cbn [HasPrefix]. by rewrite Ascii.eqb_refl, IH.
Qed.

Lemma index_nat_take s sub n c :
  index_nat s sub = Some c → (c + String.length sub ≤ n)%nat →
  index_nat (take n s) sub = Some c.
Proof.
  revert n c; induction s as [|a s IH]; intros n c.
  - cbn [index_nat]. destruct (HasPrefix "" sub) eqn:Hp; [|done].
    intros [= <-] Hn. destruct n; cbn [take index_nat]; by rewrite Hp.
  - rewrite index_nat_cons. destruct (HasPrefix (String a s) sub) eqn:Hp.
    + intros [= <-] Hn. destruct n as [|n].
      * destruct sub; [done|simpl in Hn; lia].
      * rewrite take_cons, index_nat_cons.
        rewrite <- take_cons, HasPrefix_take, Hp by lia. done.
    + destruct (index_nat s sub) as [c'|] eqn:Hc'; [|done].
      intros [= <-] Hn. destruct n as [|n]; [lia|].
      rewrite take_cons, index_nat_cons.
      rewrite <- take_cons, HasPrefix_take, Hp by lia.
      rewrite (IH n c') by (done || lia). done.
Qed.

Lemma slice_from_inv s z s1 :
  slice_from s z = Ret s1 → 0 ≤ z ≤ len s ∧ s1 = drop (Z.to_nat z) s.
Proof.
  unfold slice_from. destruct (Z.leb_spec 0 z), (Z.leb_spec z (len s)); cbn; try done.
  intros [= <-]. split; [lia|done].
Qed.

Lemma slice_to_inv s z s1 :
  slice_to s z = Ret s1 → 0 ≤ z ≤ len s ∧ s1 = take (Z.to_nat z) s.
Proof.
  unfold slice_to. destruct (Z.leb_spec 0 z), (Z.leb_spec z (len s)); cbn; try done.
  intros [= <-]. split; [lia|done].
Qed.

Lemma Index_nat s sub : 0 ≤ Index s sub → index_nat s sub = Some (Z.to_nat (Index s sub)).
Proof.
  unfold Index. destruct (index_nat s sub) as [c|]; cbn; [|lia].
  intros _. by rewrite Nat2Z.id.
Qed.

Lemma scan_body_spans raw st st' :
  spans_inv raw st → scan_guard st = true → scan_body st = Ret st' →
  spans_inv raw st' ∧
  List.length (scan_addrList st') = S (List.length (scan_addrList st)).
Proof.
  intros (Hinv & [k Hk] & Hok & Hsub) Hguard Hbody.
  destruct (scan_body_spec st Hinv Hguard)
    as (s1 & piece & s2 & Hs1 & Hopen & Hclose & Hpiece & Hs2 & _ & Hrun).
  rewrite Hrun in Hbody. injection Hbody as <-. cbn [scan_addrStr scan_addrList].
  apply slice_from_inv in Hs1 as [Hopen_range ->].
  apply slice_to_inv in Hpiece as [_ ->].
  apply slice_from_inv in Hs2 as [_ ->].
  set (o := Z.to_nat (scan_open st)) in *.
  set (s1 := drop o (scan_addrStr st)) in *.
  assert (index_nat s1 ">" = Some (Z.to_nat (Index s1 ">"))) as Hc by (apply Index_nat; lia).
  set (c := Z.to_nat (Index s1 ">")) in *.
  replace (Z.to_nat (Index s1 ">" + 1)) with (S c) by lia.
  split; [|by rewrite length_app, Nat.add_1_r]. unfold spans_inv. cbn [scan_addrStr scan_addrList]. split_and!.
  - done.
  - exists (k + o + c)%nat. unfold s1. rewrite Hk, !drop_drop. f_equal. lia.
  - apply Forall_app. split; [done|]. apply Forall_singleton. split.
    + by rewrite HasPrefix_take by (simpl; lia).
    + unfold Index, len. rewrite (index_nat_take s1 ">" (S c) c Hc) by (simpl; lia).
      cbn [int_of_pos]. rewrite take_length; [lia|]. unfold len in Hclose. lia.
  - apply Forall_app. split; [done|]. apply Forall_singleton.
    apply Contains_occurs. exists (k + o)%nat. unfold s1.
    rewrite Hk, drop_drop. apply HasPrefix_take_self.
Qed.

Lemma scan_loop_spans raw fuel st st' :
  spans_inv raw st → scan_loop fuel st = Ret st' →
  spans_inv raw st' ∧
  (List.length (scan_addrList st) ≤ List.length (scan_addrList st'))%nat ∧
  (scan_guard st = true →
   (List.length (scan_addrList st) < List.length (scan_addrList st'))%nat).
Proof.
  revert st; induction fuel as [|fuel IH]; intros st Hinv; cbn [scan_loop];
    destruct (scan_guard st) eqn:Hguard; try done.
  - intros [= <-]. split_and!; [done|lia|done].
  - destruct (scan_body st) as [st1| |] eqn:Hbody; try done.
    rewrite outcome_bind_Ret. intros Hloop.
    destruct (scan_body_spans raw st st1 Hinv Hguard Hbody) as (Hinv1 & Hlen1).
    destruct (IH st1 Hinv1 Hloop) as (Hinv' & Hlen' & _).
    split_and!; [done|lia|]. intros _. lia.
  - intros [= <-]. split_and!; [done|lia|done].
Qed.

Lemma spans_inv_init raw :
  spans_inv raw (mkScan raw [] (Index raw "<") (LastIndex raw ">")).
Proof.
  split_and!; [done|by exists O|apply Forall_nil_2|apply Forall_nil_2].
Qed.

End SpanFacts.

(** ** The paths of the sanitizer *)

Section PathFacts.
Context `{C : Collaborators}.

Lemma sanitize_strict (h : MIMEHeader) (field decoded : string) (addrs : slice Address) :
  MIMEHeader_Get h field ≠ "" →
  DecodeHeader (MIMEHeader_Get h field) = (decoded, None) →
  ParseAddressList (parseAddressComment decoded) = (addrs, None) →
  sanitizeAddressList h field = Ret (Some (default [] addrs), None).
Proof.
  intros Hraw%String.eqb_neq Hdec Hparse. unfold sanitizeAddressList.
  rewrite Hraw, Hdec, Hparse. by destruct addrs.
Qed.

End PathFacts.

(** X13: when the field is absent or its first value is empty,
    [sanitizeAddressList] returns [ErrHeaderNotPresent] and no addresses,
    without calling the decoder or the parser. *)
Theorem sanitizeAddressList_field_not_present `{C : Collaborators}
    (h : MIMEHeader) (field : string) :
  MIMEHeader_Get h field = "" →
  sanitizeAddressList h field = Ret (None, Some ErrHeaderNotPresent).
Proof. intros Hraw. unfold sanitizeAddressList. by rewrite Hraw. Qed.

Lemma sanitizeAddressList_field_not_present_witness :
  MIMEHeader_Get Examples.from_header "To" = "" ∧
  sanitizeAddressList (C := Toy.collaborators true) Examples.from_header "To"
  = Ret (None, Some "mail: header not in message").
Proof.
  split; [reflexivity|].
  apply (sanitizeAddressList_field_not_present (C := Toy.collaborators true)). reflexivity.
Defined.

(** X14: when the value decodes and the strict parse succeeds,
    [sanitizeAddressList] returns the parsed addresses with a nil error, and
    a nil list from the parser is returned as an empty list that is not
    nil. *)
Theorem sanitizeAddressList_strict_success `{C : Collaborators}
    (h : MIMEHeader) (field decoded : string) (addrs : slice Address) :
  MIMEHeader_Get h field ≠ "" →
  DecodeHeader (MIMEHeader_Get h field) = (decoded, None) →
  ParseAddressList (parseAddressComment decoded) = (addrs, None) →
  sanitizeAddressList h field = Ret (Some (default [] addrs), None).
Proof. apply sanitize_strict. Qed.

Lemma sanitizeAddressList_strict_success_witness :
  MIMEHeader_Get Examples.comment_header "From" ≠ "" ∧
  DecodeHeader (Collaborators := Toy.collaborators true)
    (MIMEHeader_Get Examples.comment_header "From") = ("(nobody)", None) ∧
  ParseAddressList (Collaborators := Toy.collaborators true)
    (parseAddressComment (Collaborators := Toy.collaborators true) "(nobody)")
  = (None, None) ∧
  sanitizeAddressList (C := Toy.collaborators true) Examples.comment_header "From"
  = Ret (Some [], None).
Proof.
  split_and!; [vm_compute; discriminate|reflexivity|reflexivity|].
  apply (sanitizeAddressList_strict_success (C := Toy.collaborators true)
           Examples.comment_header "From" "(nobody)" None);
    [vm_compute; discriminate|reflexivity|reflexivity].
Defined.

(** X15: when the strict parse fails and the raw value has no open
    bracket, no close bracket, or its first open bracket is not before its
    last close bracket, [sanitizeAddressList] returns the result and the
    error of the strict parse unchanged. *)
Theorem sanitizeAddressList_no_brackets `{C : Collaborators}
    (h : MIMEHeader) (field decoded : string) (addrs : slice Address) (e : error) :
  MIMEHeader_Get h field ≠ "" →
  DecodeHeader (MIMEHeader_Get h field) = (decoded, None) →
  ParseAddressList (parseAddressComment decoded) = (addrs, Some e) →
  Index (MIMEHeader_Get h field) "<" < 0 ∨
  LastIndex (MIMEHeader_Get h field) ">" < 0 ∨
  LastIndex (MIMEHeader_Get h field) ">" ≤ Index (MIMEHeader_Get h field) "<" →
  sanitizeAddressList h field = Ret (addrs, Some e).
Proof.
  intros Hraw%String.eqb_neq Hdec Hparse Hbr. unfold sanitizeAddressList.
  rewrite Hraw, Hdec, Hparse.
  destruct (Z.ltb_spec (Index (MIMEHeader_Get h field) "<") 0); [done|].
  destruct (Z.ltb_spec (LastIndex (MIMEHeader_Get h field) ">") 0); [done|].
  destruct (Z.geb_spec (Index (MIMEHeader_Get h field) "<")
              (LastIndex (MIMEHeader_Get h field) ">")); [done|lia].
Qed.

Lemma sanitizeAddressList_no_brackets_witness :
  MIMEHeader_Get MoreExamples.no_bracket_header "To" ≠ "" ∧
  Index (MIMEHeader_Get MoreExamples.no_bracket_header "To") "<" < 0 ∧
  sanitizeAddressList (C := Toy.collaborators true) MoreExamples.no_bracket_header "To"
  = Ret (None, Some "mail: invalid address list").
Proof.
  split_and!; [vm_compute; discriminate|reflexivity|].
  apply (sanitizeAddressList_no_brackets (C := Toy.collaborators true)
           MoreExamples.no_bracket_header "To" "undisclosed recipients" None);
    [vm_compute; discriminate|reflexivity|reflexivity|left; reflexivity].
Defined.

(** X16: when the strict parse fails and the first open bracket of the raw
    value is before its last close bracket, [sanitizeAddressList] returns
    what the parser makes of at least one span joined by a comma and a
    space; every span begins with an open bracket, has its only close
    bracket as its last byte, and is a substring of the raw value. *)
Theorem sanitizeAddressList_spans `{C : Collaborators}
    (h : MIMEHeader) (field decoded : string) (addrs : slice Address) (e : error) :
  DecodeHeader (MIMEHeader_Get h field) = (decoded, None) →
  ParseAddressList (parseAddressComment decoded) = (addrs, Some e) →
  0 ≤ Index (MIMEHeader_Get h field) "<" < LastIndex (MIMEHeader_Get h field) ">" →
  ∃ spans,
    spans ≠ [] ∧
    Forall span_ok spans ∧
    Forall (λ p, Contains (MIMEHeader_Get h field) p = true) spans ∧
    sanitizeAddressList h field = Ret (ParseAddressList (Join spans ", ")).
Proof.
  intros Hdec Hparse Hbr. unfold sanitizeAddressList.
  set (raw := MIMEHeader_Get h field) in *.
  assert (String.eqb raw "" = false) as ->.
  { apply String.eqb_neq. intros Hraw. rewrite Hraw in Hbr. vm_compute in Hbr.
    destruct Hbr as [Hbr _]. by apply Hbr. }
  rewrite Hdec, Hparse.
  destruct (Z.ltb_spec (Index raw "<") 0); [lia|].
  destruct (Z.ltb_spec (LastIndex raw ">") 0); [lia|].
  destruct (Z.geb_spec (Index raw "<") (LastIndex raw ">")); [lia|]. cbn [orb].
  destruct (scan_loop_total (String.length raw) _ (scan_inv_init raw) (le_n _))
    as (st & Hloop & _).
  rewrite Hloop, outcome_bind_Ret.
  destruct (scan_loop_spans raw _ _ _ (spans_inv_init raw) Hloop)
    as ((_ & _ & Hok & Hsub) & _ & Hgrow).
  exists (scan_addrList st). split_and!; try done.
  assert (scan_guard (mkScan raw [] (Index raw "<") (LastIndex raw ">")) = true) as Hguard.
  { unfold scan_guard. cbn [scan_open scan_last].
    apply andb_true_intro. split; [apply Z.ltb_lt|apply Z.leb_le]; lia. }
  specialize (Hgrow Hguard). cbn [scan_addrList] in Hgrow.
  intros Hnil. rewrite Hnil in Hgrow. simpl in Hgrow. lia.
Qed.

Lemma sanitizeAddressList_spans_witness :
  DecodeHeader (Collaborators := Toy.collaborators true)
    (MIMEHeader_Get MoreExamples.nested_header "To") = ("x <<a@b>> y <c@d> z <e", None) ∧
  ParseAddressList (Collaborators := Toy.collaborators true)
    (parseAddressComment (Collaborators := Toy.collaborators true) "x <<a@b>> y <c@d> z <e")
  = (None, Some "mail: invalid address list") ∧
  0 ≤ Index (MIMEHeader_Get MoreExamples.nested_header "To") "<"
    < LastIndex (MIMEHeader_Get MoreExamples.nested_header "To") ">" ∧
  ∃ spans,
    spans ≠ [] ∧
    Forall span_ok spans ∧
    Forall (λ p, Contains (MIMEHeader_Get MoreExamples.nested_header "To") p = true) spans ∧
    sanitizeAddressList (C := Toy.collaborators true) MoreExamples.nested_header "To"
    = Ret (ParseAddressList (Collaborators := Toy.collaborators true) (Join spans ", ")).
Proof.
  assert (0 ≤ Index (MIMEHeader_Get MoreExamples.nested_header "To") "<"
            < LastIndex (MIMEHeader_Get MoreExamples.nested_header "To") ">") as Hbr.
  { vm_compute. split; [discriminate|reflexivity]. }
  split; [reflexivity|]. split; [reflexivity|]. split; [exact Hbr|].
  apply (sanitizeAddressList_spans (C := Toy.collaborators true)
           MoreExamples.nested_header "To" "x <<a@b>> y <c@d> z <e" None
           "mail: invalid address list");
    [reflexivity|reflexivity|exact Hbr].
Defined.

(** ** The parsed message *)

Section ParsedFields.
Context `{C : Collaborators}.

Lemma parseHeader_parsed (σ : heap) (h : href) rFrom rReplyTo rTo rCc rBcc :
  sanitizeAddressList (deref σ h) "From" = Ret rFrom →
  sanitizeAddressList (deref σ h) "Reply-To" = Ret rReplyTo →
  sanitizeAddressList (deref σ h) "To" = Ret rTo →
  sanitizeAddressList (deref σ h) "Cc" = Ret rCc →
  sanitizeAddressList (deref σ h) "Bcc" = Ret rBcc →
  parseHeader σ h
  = Ret (parsedMessage h (deref σ h) rFrom rReplyTo rTo rCc rBcc, None).
Proof.
  intros HF HR HT HC HB. unfold parseHeader, parsedMessage.
  rewrite HF, HR, HT, HC, HB.
  generalize (DecodeHeader (MIMEHeader_Get (deref σ h) "Subject")).
  generalize (Header_Date (deref σ h)).
  intros [t [e|]] [subject [e'|]];
    destruct rFrom as [[[|a l]|] [e1|]], rReplyTo as [[[|a2 l2]|] [e2|]],
      rTo as [a3 [e3|]], rCc as [a4 [e4|]], rBcc as [a5 [e5|]];
    try destruct (IsZero t) eqn:Hzero; cbn; rewrite ?Hzero; reflexivity.
Qed.

Lemma parseHeader_some_parsed (σ : heap) (h : href) :
  ∃ rFrom rReplyTo rTo rCc rBcc,
    sanitizeAddressList (deref σ h) "From" = Ret rFrom ∧
    sanitizeAddressList (deref σ h) "Reply-To" = Ret rReplyTo ∧
    sanitizeAddressList (deref σ h) "To" = Ret rTo ∧
    sanitizeAddressList (deref σ h) "Cc" = Ret rCc ∧
    sanitizeAddressList (deref σ h) "Bcc" = Ret rBcc ∧
    parseHeader σ h
    = Ret (parsedMessage h (deref σ h) rFrom rReplyTo rTo rCc rBcc, None).
Proof.
  destruct (sanitize_returns (deref σ h) "From") as [rF HF].
  destruct (sanitize_returns (deref σ h) "Reply-To") as [rR HR].
  destruct (sanitize_returns (deref σ h) "To") as [rT HT].
  destruct (sanitize_returns (deref σ h) "Cc") as [rC HC].
  destruct (sanitize_returns (deref σ h) "Bcc") as [rB HB].
  exists rF, rR, rT, rC, rB. split_and!; try done. by apply parseHeader_parsed.
Qed.

End ParsedFields.

(** X17: [parseHeader] sets Subject to the decoded Subject field, or leaves
    it empty when decoding fails; sets Time to the Unix time of the Date
    field when it parses to a time that is not zero, and to 0 otherwise; and
    leaves ID, ExternalID, ConversationID and MIMEType empty. *)
Theorem parseHeader_Subject_Time `{C : Collaborators} (σ : heap) (h : href) :
  ∃ m, parseHeader σ h = Ret (m, None) ∧
    (∀ s, DecodeHeader (MIMEHeader_Get (deref σ h) "Subject") = (s, None) → Subject m = s) ∧
    (∀ s e, DecodeHeader (MIMEHeader_Get (deref σ h) "Subject") = (s, Some e) →
            Subject m = "") ∧
    (∀ t, Header_Date (deref σ h) = (t, None) → IsZero t = false → Time m = Unix t) ∧
    (∀ t, Header_Date (deref σ h) = (t, None) → IsZero t = true → Time m = 0) ∧
    (∀ t e, Header_Date (deref σ h) = (t, Some e) → Time m = 0) ∧
    ID m = "" ∧ ExternalID m = "" ∧ ConversationID m = "" ∧ MIMEType m = "".
Proof.
  destruct (parseHeader_some_parsed σ h) as (rF & rR & rT & rC & rB & H).
  destruct H as (_ & _ & _ & _ & _ & ->). eexists. split; [done|].
  cbn [Subject Time ID ExternalID ConversationID MIMEType parsedMessage].
  split_and!; try done.
  - by intros s ->.
  - by intros s e ->.
  - by intros t -> ->.
  - by intros t -> ->.
  - by intros t e ->.
Qed.

Lemma parseHeader_Subject_Time_witness :
  Header_Date (C := Toy.collaborators true) (deref Examples.store (Some 1%positive))
  = (3, None) ∧
  ∃ m, parseHeader (C := Toy.collaborators true) Examples.store (Some 1%positive)
       = Ret (m, None) ∧
       Subject m = "Hello" ∧ Time m = 3.
Proof.
  split; [reflexivity|].
  destruct (parseHeader_Subject_Time (C := Toy.collaborators true)
              Examples.store (Some 1%positive)) as (m & Hm & Hs & _ & Ht & _).
  exists m. split_and!; [exact Hm|by apply Hs|by apply (Ht 3)].
Defined.

(** X18: [parseHeader] takes the Sender from the first sanitized From
    address and ReplyTos from a non-empty sanitized Reply-To list; To, Cc
    and Bcc are the sanitized lists, and on a sanitizer error they stay
    empty lists that are not nil while Sender and ReplyTos stay nil. *)
Theorem parseHeader_address_fields `{C : Collaborators} (σ : heap) (h : href) :
  ∃ m, parseHeader σ h = Ret (m, None) ∧
    (∀ a l, sanitizeAddressList (deref σ h) "From" = Ret (Some (a :: l), None) →
            Sender m = Some a) ∧
    (∀ addrs e, sanitizeAddressList (deref σ h) "From" = Ret (addrs, Some e) →
                Sender m = None) ∧
    (∀ addrs, sanitizeAddressList (deref σ h) "Reply-To" = Ret (addrs, None) →
              0 < slice_len addrs → ReplyTos m = addrs) ∧
    (∀ addrs e, sanitizeAddressList (deref σ h) "Reply-To" = Ret (addrs, Some e) →
                ReplyTos m = None) ∧
    (∀ addrs, sanitizeAddressList (deref σ h) "To" = Ret (addrs, None) → ToList m = addrs) ∧
    (∀ addrs e, sanitizeAddressList (deref σ h) "To" = Ret (addrs, Some e) →
                ToList m = Some []) ∧
    (∀ addrs, sanitizeAddressList (deref σ h) "Cc" = Ret (addrs, None) → CCList m = addrs) ∧
    (∀ addrs e, sanitizeAddressList (deref σ h) "Cc" = Ret (addrs, Some e) →
                CCList m = Some []) ∧
    (∀ addrs, sanitizeAddressList (deref σ h) "Bcc" = Ret (addrs, None) →
              BCCList m = addrs) ∧
    (∀ addrs e, sanitizeAddressList (deref σ h) "Bcc" = Ret (addrs, Some e) →
                BCCList m = Some []).
Proof.
  destruct (parseHeader_some_parsed σ h) as (rF & rR & rT & rC & rB & H).
  destruct H as (HF & HR & HT & HC & HB & ->). eexists. split; [done|].
  cbn [Sender ReplyTos ToList CCList BCCList parsedMessage].
  rewrite HF, HR, HT, HC, HB.
  split_and!.
  - by intros a l [= ->].
  - intros addrs e [= ->]. by destruct addrs as [[|? ?]|].
  - intros addrs [= ->] Hlen%Z.ltb_lt. by rewrite Hlen.
  - by intros addrs e [= ->].
  - by intros addrs [= ->].
  - by intros addrs e [= ->].
  - by intros addrs [= ->].
  - by intros addrs e [= ->].
  - by intros addrs [= ->].
  - by intros addrs e [= ->].
Qed.

Lemma parseHeader_address_fields_witness :
  sanitizeAddressList (C := Toy.collaborators true)
    (deref Examples.store (Some 4%positive)) "From"
  = Ret (Some [mkAddress "" "a@example.com"; mkAddress "" "b@example.com"], None) ∧
  ∃ m, parseHeader (C := Toy.collaborators true) Examples.store (Some 4%positive)
       = Ret (m, None) ∧
       Sender m = Some (mkAddress "" "a@example.com") ∧
       ToList m = Some [].
Proof.
  split; [reflexivity|].
  destruct (parseHeader_address_fields (C := Toy.collaborators true)
              Examples.store (Some 4%positive))
    as (m & Hm & HS & _ & _ & _ & _ & HT & _).
  exists m. split_and!; [exact Hm| |].
  - apply (HS _ [mkAddress "" "b@example.com"]). reflexivity.
  - apply (HT None "mail: header not in message"). reflexivity.
Defined.

(** ** Building and parsing back *)

Section RoundTripFacts.
Context `{C : Collaborators}.
Implicit Types (m : MIMEHeader) (msg : Message) (σ : heap).

Lemma builtHeader_deref msg σ :
  deref (GetHeader msg σ).2 (Some (GetHeader msg σ).1) = builtHeader msg σ.
Proof. unfold builtHeader. by destruct (GetHeader msg σ). Qed.

Lemma sanitize_round_trip (h : MIMEHeader) (field : string) (l : slice Address) :
  0 < slice_len l → list_round_trips l →
  MIMEHeader_Get h field = EncodeHeader (formatAddressList l) →
  sanitizeAddressList h field = Ret (l, None).
Proof.
  intros Hlen (Hne & decoded & Hdec & Hparse) Hget.
  rewrite (sanitize_strict h field decoded l); rewrite ?Hget; try done.
  destruct l; [done|simpl in Hlen; lia].
Qed.

Lemma built_Get_ReplyTo msg σ :
  0 < slice_len (ReplyTos msg) →
  MIMEHeader_Get (builtHeader msg σ) "Reply-To"
  = EncodeHeader (formatAddressList (ReplyTos msg)).
Proof.
  intros Hlen%Z.ltb_lt. rewrite builtHeader_fields, Get_values.
  by rewrite headerFields_envelope, envelope_ReplyTo, Hlen by key_ne.
Qed.

Lemma built_Get_To msg σ :
  0 < slice_len (ToList msg) →
  MIMEHeader_Get (builtHeader msg σ) "To" = EncodeHeader (formatAddressList (ToList msg)).
Proof.
  intros Hlen%Z.ltb_lt. rewrite builtHeader_fields, Get_values.
  by rewrite headerFields_envelope, envelope_To, Hlen by key_ne.
Qed.

Lemma built_Get_Cc msg σ :
  0 < slice_len (CCList msg) →
  MIMEHeader_Get (builtHeader msg σ) "Cc" = EncodeHeader (formatAddressList (CCList msg)).
Proof.
  intros Hlen%Z.ltb_lt. rewrite builtHeader_fields, Get_values.
  by rewrite headerFields_envelope, envelope_Cc, Hlen by key_ne.
Qed.

Lemma built_Get_Bcc msg σ :
  0 < slice_len (BCCList msg) →
  MIMEHeader_Get (builtHeader msg σ) "Bcc" = EncodeHeader (formatAddressList (BCCList msg)).
Proof.
  intros Hlen%Z.ltb_lt. rewrite builtHeader_fields, Get_values.
  by rewrite headerFields_envelope, envelope_Bcc, Hlen by key_ne.
Qed.

Lemma built_Get_Subject msg σ :
  MIMEHeader_Get (builtHeader msg σ) "Subject" = EncodeHeader (Subject msg).
Proof.
  rewrite builtHeader_fields, Get_values.
  by rewrite headerFields_envelope, envelope_Subject by key_ne.
Qed.

Lemma built_Get_From msg σ a :
  Sender msg = Some a →
  MIMEHeader_Get (builtHeader msg σ) "From" = EncodeHeader (AddressString a).
Proof.
  intros Ha. rewrite builtHeader_fields, Get_values.
  by rewrite headerFields_envelope, envelope_From, Ha by key_ne.
Qed.

Lemma reparsed_parsed msg σ :
  ∃ rFrom rReplyTo rTo rCc rBcc,
    sanitizeAddressList (builtHeader msg σ) "From" = Ret rFrom ∧
    sanitizeAddressList (builtHeader msg σ) "Reply-To" = Ret rReplyTo ∧
    sanitizeAddressList (builtHeader msg σ) "To" = Ret rTo ∧
    sanitizeAddressList (builtHeader msg σ) "Cc" = Ret rCc ∧
    sanitizeAddressList (builtHeader msg σ) "Bcc" = Ret rBcc ∧
    reparsed msg σ
    = Ret (parsedMessage (Some (GetHeader msg σ).1) (builtHeader msg σ)
             rFrom rReplyTo rTo rCc rBcc, None).
Proof.
  unfold reparsed.
  destruct (parseHeader_some_parsed (GetHeader msg σ).2 (Some (GetHeader msg σ).1))
    as (rF & rR & rT & rC & rB & H).
  rewrite builtHeader_deref in H. by exists rF, rR, rT, rC, rB.
Qed.

End RoundTripFacts.

(** X19: when the decoder takes the encoded Subject back to the Subject,
    parsing the header [GetHeader] built gives a Message with the same
    Subject. *)
Theorem Subject_round_trip `{C : Collaborators} (msg : Message) (σ : heap) :
  DecodeHeader (EncodeHeader (Subject msg)) = (Subject msg, None) →
  ∃ m, reparsed msg σ = Ret (m, None) ∧ Subject m = Subject msg.
Proof.
  intros Hcodec. destruct (reparsed_parsed msg σ) as (rF & rR & rT & rC & rB & H).
  destruct H as (_ & _ & _ & _ & _ & ->). eexists. split; [done|].
  cbn [Subject parsedMessage]. by rewrite built_Get_Subject, Hcodec.
Qed.

Lemma Subject_round_trip_witness :
  DecodeHeader (Collaborators := Toy.collaborators true)
    (EncodeHeader (Collaborators := Toy.collaborators true)
       (Subject (Examples.message "a" "Hi" 0 None)))
  = (Subject (Examples.message "a" "Hi" 0 None), None) ∧
  ∃ m, reparsed (C := Toy.collaborators true) (Examples.message "a" "Hi" 0 None)
         Examples.store = Ret (m, None) ∧
       Subject m = "Hi".
Proof.
  split; [reflexivity|].
  apply (Subject_round_trip (C := Toy.collaborators true)
           (Examples.message "a" "Hi" 0 None) Examples.store).
  reflexivity.
Defined.

(** X20: for each of Reply-To, To, Cc and Bcc, when the list of the Message
    is not empty and the collaborators take its formatted, encoded form back
    to it, parsing the header [GetHeader] built gives the same list. *)
Theorem address_lists_round_trip `{C : Collaborators} (msg : Message) (σ : heap) :
  ∃ m, reparsed msg σ = Ret (m, None) ∧
    (0 < slice_len (ReplyTos msg) → list_round_trips (ReplyTos msg) →
     ReplyTos m = ReplyTos msg) ∧
    (0 < slice_len (ToList msg) → list_round_trips (ToList msg) →
     ToList m = ToList msg) ∧
    (0 < slice_len (CCList msg) → list_round_trips (CCList msg) →
     CCList m = CCList msg) ∧
    (0 < slice_len (BCCList msg) → list_round_trips (BCCList msg) →
     BCCList m = BCCList msg).
Proof.
  destruct (reparsed_parsed msg σ) as (rF & rR & rT & rC & rB & H).
  destruct H as (_ & HR & HT & HC & HB & ->). eexists. split; [done|].
  cbn [ReplyTos ToList CCList BCCList parsedMessage]. split_and!.
  - intros Hlen Hrt.
    rewrite (sanitize_round_trip _ "Reply-To" (ReplyTos msg) Hlen Hrt) in HR
      by by apply built_Get_ReplyTo.
    injection HR as <-. by apply Z.ltb_lt in Hlen as ->.
  - intros Hlen Hrt.
    rewrite (sanitize_round_trip _ "To" (ToList msg) Hlen Hrt) in HT
      by by apply built_Get_To.
    by injection HT as <-.
  - intros Hlen Hrt.
    rewrite (sanitize_round_trip _ "Cc" (CCList msg) Hlen Hrt) in HC
      by by apply built_Get_Cc.
    by injection HC as <-.
  - intros Hlen Hrt.
    rewrite (sanitize_round_trip _ "Bcc" (BCCList msg) Hlen Hrt) in HB
      by by apply built_Get_Bcc.
    by injection HB as <-.
Qed.

Lemma address_lists_round_trip_witness :
  0 < slice_len (ToList RoundTripExamples.message) ∧
  list_round_trips (C := Toy.collaborators true) (ToList RoundTripExamples.message) ∧
  ∃ m, reparsed (C := Toy.collaborators true) RoundTripExamples.message Examples.store
       = Ret (m, None) ∧
       ToList m = RoundTripExamples.recipients.
Proof.
  assert (list_round_trips (C := Toy.collaborators true) (ToList RoundTripExamples.message))
    as Hrt.
  { split; [vm_compute; discriminate|]. exists "<a@example.com>, <b@example.com>".
    split; reflexivity. }
  split; [reflexivity|]. split; [exact Hrt|].
  destruct (address_lists_round_trip (C := Toy.collaborators true)
              RoundTripExamples.message Examples.store) as (m & Hm & _ & HTo & _).
  exists m. split; [exact Hm|]. apply HTo; [reflexivity|exact Hrt].
Defined.

(** X21: when the Message has a Sender, the encoding of the Sender's
    string form is not empty, the decoder succeeds on that encoding and the
    address-list parser takes the comment-stripped decoded value to a list
    that begins with the Sender, parsing the header [GetHeader] built gives
    the same Sender. *)
Theorem Sender_round_trip `{C : Collaborators}
    (msg : Message) (σ : heap) (a : Address) (decoded : string) (rest : list Address) :
  Sender msg = Some a →
  EncodeHeader (AddressString a) ≠ "" →
  DecodeHeader (EncodeHeader (AddressString a)) = (decoded, None) →
  ParseAddressList (parseAddressComment decoded) = (Some (a :: rest), None) →
  ∃ m, reparsed msg σ = Ret (m, None) ∧ Sender m = Sender msg.
Proof.
  intros Ha Hne Hdec Hparse.
  destruct (reparsed_parsed msg σ) as (rF & rR & rT & rC & rB & H).
  destruct H as (HF & _ & _ & _ & _ & ->). eexists. split; [done|].
  cbn [Sender parsedMessage].
  rewrite (sanitize_strict _ "From" decoded (Some (a :: rest))) in HF;
    rewrite ?(built_Get_From msg σ a Ha); try done.
  injection HF as <-. by rewrite Ha.
Qed.

Lemma Sender_round_trip_witness :
  Sender RoundTripExamples.message = Some (mkAddress "" "s@example.com") ∧
  ∃ m, reparsed (C := Toy.collaborators true) RoundTripExamples.message Examples.store
       = Ret (m, None) ∧
       Sender m = Some (mkAddress "" "s@example.com").
Proof.
  split; [reflexivity|].
  apply (Sender_round_trip (C := Toy.collaborators true)
           RoundTripExamples.message Examples.store
           (mkAddress "" "s@example.com") "<s@example.com>" []);
    [reflexivity|vm_compute; discriminate|reflexivity|reflexivity].
Defined.

Section TimeFacts.
Context `{C : Collaborators}.

Lemma Header_Date_of_Get (m : MIMEHeader) (v : string) :
  MIMEHeader_Get m "Date" = v → v ≠ "" → Header_Date m = ParseDate v.
Proof. intros <- Hv%String.eqb_neq. unfold Header_Date. cbv zeta. by rewrite Hv. Qed.

End TimeFacts.

(** X22: for a Message with [Time > 0], parsing the header [GetHeader]
    built gives Time back when the header had no usable Date (absent,
    unparsable or zero), the rendering of Time is not empty and the date
    parser takes that rendering back to a time that is not zero and has
    Time as its Unix value; when the header had a Date that parses to a time
    that is not zero, the parsed Time is that date's Unix time, whatever
    Time is. *)
Theorem Time_round_trip `{C : Collaborators} (msg : Message) (σ : heap) :
  0 < Time msg →
  ∃ m, reparsed msg σ = Ret (m, None) ∧
    (∀ d,
       FormatRFC1123Z (Time msg) ≠ "" →
       ParseDate (FormatRFC1123Z (Time msg)) = (d, None) →
       IsZero d = false → Unix d = Time msg →
       (∀ t, Header_Date (deref σ (Header msg)) = (t, None) → IsZero t = true) →
       Time m = Time msg) ∧
    (∀ t,
       Header_Date (deref σ (Header msg)) = (t, None) → IsZero t = false →
       Time m = Unix t).
Proof.
  intros Htime.
  destruct (reparsed_parsed msg σ) as (rF & rR & rT & rC & rB & H).
  destruct H as (_ & _ & _ & _ & _ & ->). eexists. split; [done|].
  cbn [Time parsedMessage].
  pose proof (built_Date msg σ Htime) as Hdate.
  split.
  - intros d Hne Hparse Hzero Hunix Hfix.
    assert (MIMEHeader_values (builtHeader msg σ) "Date"
            = Some [FormatRFC1123Z (Time msg)]) as Hvalues.
    { rewrite Hdate. destruct (Header_Date (deref σ (Header msg))) as [t [e|]]; [done|].
      by rewrite (Hfix t eq_refl). }
    rewrite (Header_Date_of_Get _ (FormatRFC1123Z (Time msg)));
      [|by rewrite Get_values, Hvalues|done].
    by rewrite Hparse, Hzero.
  - intros t Hold Hzero. rewrite Hold, Hzero in Hdate.
    rewrite (Header_Date_ext (builtHeader msg σ) (deref σ (Header msg)))
      by by apply Get_of_values.
    by rewrite Hold, Hzero.
Qed.

Lemma Time_round_trip_witness :
  0 < Time RoundTripExamples.message ∧
  ∃ m, reparsed (C := Toy.collaborators true) RoundTripExamples.message Examples.store
       = Ret (m, None) ∧
       Time m = 5.
Proof.
  split; [reflexivity|].
  destruct (Time_round_trip (C := Toy.collaborators true)
              RoundTripExamples.message Examples.store) as (m & Hm & Hback & _);
    [reflexivity|].
  exists m. split; [exact Hm|].
  apply (Hback 5); [vm_compute; discriminate|reflexivity|reflexivity|reflexivity|].
  intros t Hold. vm_compute in Hold. discriminate.
Defined.
